(** * MIA symbolic roadmap: the extraction-and-refinement cycle

    A shallow embedding of [mia_symbolic_orchestrator.py] (prompt builder,
    generation client, source fetcher, the two text extractors, the cycle
    and the outer loop) and of [SymbolicGenerator.update_roadmap] from
    [mia_symbolic_generator.py], with the properties the specification
    states about them.

    Modelling scope.  Text is [string] over Stdlib's 8-bit [ascii]; the
    character classes of Python's [re] ([\s], [\d], [\b], IGNORECASE) and
    of [str.strip] are the ones Python uses on the ASCII range, so the
    model follows the program on ASCII text.  The two lists the
    orchestrator works on hold strings.  Effects are the requests, the
    fetches, the sleeps, the cycle banner and the writes of the roadmap
    file, and the failures are those Python reports as [Exception]s.

    Left out.  The other console output ([print] in the cycle and in
    [visualizza_roadmap]) is not modelled, and a write of the roadmap
    file always succeeds.  The program can also die while it prints (a
    text the console cannot encode) or while it writes (leaving a
    truncated file); no statement below describes such a run.  What is
    said of a run that raises is said of exceptions of the generation
    service and of the shape of the roadmap, and what is said of the
    file is said of writes that succeed. *)

From Stdlib Require Import Ascii String ZArith Permutation.
From stdpp Require Import gmap strings list pretty.

(** ** Characters *)

Module Chr.

Definition code (c : ascii) : N := N_of_ascii c.

Definition between (lo hi c : ascii) : bool :=
  ((code lo <=? code c) && (code c <=? code hi))%N.

Definition is_upper (c : ascii) : bool := between "A" "Z" c.
Definition is_lower (c : ascii) : bool := between "a" "z" c.
Definition is_digit (c : ascii) : bool := between "0" "9" c.

(** [\w]: letters, digits and the underscore. *)
Definition is_word (c : ascii) : bool :=
  is_upper c || is_lower c || is_digit c || bool_decide (c = "_"%char).

(** [\s] and [str.isspace]: TAB, LF, VT, FF, CR, FS, GS, RS, US, SPACE. *)
Definition is_space (c : ascii) : bool :=
  (((9 <=? code c) && (code c <=? 13)) ||
   ((28 <=? code c) && (code c <=? 32)))%N.

Definition lower (c : ascii) : ascii :=
  if is_upper c then ascii_of_N (code c + 32) else c.

Definition upper (c : ascii) : ascii :=
  if is_lower c then ascii_of_N (code c - 32) else c.

End Chr.

(** ** Python string helpers *)

Module Str.

Fixpoint lstrip (s : string) : string :=
  match s with
  | String c s' => if Chr.is_space c then lstrip s' else s
  | EmptyString => s
  end.

(** [s.strip()] *)
Definition strip (s : string) : string :=
  String.rev (lstrip (String.rev (lstrip s))).

(** [sep.join(l)] *)
Fixpoint join (sep : string) (l : list string) : string :=
  match l with
  | [] => ""
  | [x] => x
  | x :: l' => x +:+ sep +:+ join sep l'
  end.

(** [s[:n]] *)
Definition slice_to (n : nat) (s : string) : string := substring 0 n s.

(** [s.replace(a, b)] for a one-character [a]. *)
Fixpoint replace_char (a : ascii) (b : string) (s : string) : string :=
  match s with
  | String c s' =>
      (if bool_decide (c = a) then b else String c "") +:+ replace_char a b s'
  | EmptyString => ""
  end.

End Str.

(** ** The fragment of Python's [re] the program uses

    A backtracking matcher in continuation-passing style.  Alternatives
    are tried left to right, greedy repetitions longest first, lazy ones
    shortest first, as [re] does.  Every repetition in the program's
    patterns ranges over a single-character item, which [Repeat] mirrors. *)

Module Re.

(** Members of a bracketed class. *)
Inductive item : Type :=
| IChar (c : ascii)
| IRange (lo hi : ascii)
| IDigit                      (* \d *)
| ISpace                      (* \s *)
| INotSpace.                  (* \S *)

(** One-character matchers. *)
Inductive atom : Type :=
| AChar (c : ascii)           (* a literal character *)
| ASet (negated : bool) (items : list item)   (* [...] and [^...] *)
| ADot.                       (* . : anything but a line feed *)

Inductive regex : Type :=
| Atom (a : atom)
| Lit (s : string)            (* a run of literal characters *)
| Repeat (a : atom) (min : nat) (max : option nat) (greedy : bool)
| Seq (r1 r2 : regex)
| Alt (r1 r2 : regex)
| Group (r : regex)           (* ( ... ), the pattern's capture group *)
| WordB                       (* \b *)
| Dollar.                     (* $ *)

Definition item_ok (i : item) (c : ascii) : bool :=
  match i with
  | IChar x => bool_decide (c = x)
  | IRange lo hi => Chr.between lo hi c
  | IDigit => Chr.is_digit c
  | ISpace => Chr.is_space c
  | INotSpace => negb (Chr.is_space c)
  end.

Section Matcher.

(** The [re.IGNORECASE] flag. *)
Variable icase : bool.

Definition char_ok (x c : ascii) : bool :=
  if icase then bool_decide (Chr.lower c = Chr.lower x)
  else bool_decide (c = x).

Definition in_items (items : list item) (c : ascii) : bool :=
  existsb (fun i => item_ok i c) items.

(** Under IGNORECASE a class accepts a character when it holds the
    character in either case. *)
Definition set_ok (items : list item) (c : ascii) : bool :=
  if icase
  then in_items items c || in_items items (Chr.lower c)
       || in_items items (Chr.upper c)
  else in_items items c.

Definition atom_ok (a : atom) (c : ascii) : bool :=
  match a with
  | AChar x => char_ok x c
  | ASet negated items => xorb negated (set_ok items c)
  | ADot => negb (bool_decide (c = "010"%char))
  end.

Definition may_repeat (max : option nat) : bool :=
  match max with Some 0 => false | _ => true end.

Definition word_before (prev : option ascii) : bool :=
  match prev with Some c => Chr.is_word c | None => false end.

Definition word_after (s : string) : bool :=
  match s with String c _ => Chr.is_word c | EmptyString => false end.

Section Cont.

Context {X : Type}.

(** Greedy [a{min,max}]: take one more character when allowed, and
    fall back to stopping here. *)
Fixpoint rep_greedy (a : atom) (min : nat) (max : option nat)
    (prev : option ascii) (s : string)
    (k : option ascii -> string -> option X) : option X :=
  match s with
  | String c s' =>
      if atom_ok a c && may_repeat max then
        match rep_greedy a (pred min) (pred <$> max) (Some c) s' k with
        | Some x => Some x
        | None => match min with 0 => k prev s | S _ => None end
        end
      else match min with 0 => k prev s | S _ => None end
  | EmptyString => match min with 0 => k prev s | S _ => None end
  end.

(** Lazy [a{min,max}?]: stop as soon as allowed, and take one more
    character when the rest fails. *)
Fixpoint rep_lazy (a : atom) (min : nat) (max : option nat)
    (prev : option ascii) (s : string)
    (k : option ascii -> string -> option X) : option X :=
  match min with
  | 0 =>
      match k prev s with
      | Some x => Some x
      | None =>
          match s with
          | String c s' =>
              if atom_ok a c && may_repeat max
              then rep_lazy a 0 (pred <$> max) (Some c) s' k
              else None
          | EmptyString => None
          end
      end
  | S m =>
      match s with
      | String c s' =>
          if atom_ok a c && may_repeat max
          then rep_lazy a m (pred <$> max) (Some c) s' k
          else None
      | EmptyString => None
      end
  end.

Fixpoint lit (l : string) (prev : option ascii) (s : string)
    (k : option ascii -> string -> option X) : option X :=
  match l with
  | EmptyString => k prev s
  | String x l' =>
      match s with
      | String c s' => if char_ok x c then lit l' (Some c) s' k else None
      | EmptyString => None
      end
  end.

(** [rmatch r prev s cap k]: match [r] at the front of [s], where
    [prev] is the character before [s] and [cap] the text of the
    capture group so far; [k] matches what follows. *)
Fixpoint rmatch (r : regex) (prev : option ascii) (s : string)
    (cap : option string)
    (k : option ascii -> string -> option string -> option X)
    : option X :=
  match r with
  | Atom a =>
      match s with
      | String c s' => if atom_ok a c then k (Some c) s' cap else None
      | EmptyString => None
      end
  | Lit l => lit l prev s (fun p s' => k p s' cap)
  | Repeat a min max greedy =>
      (if greedy then rep_greedy else rep_lazy)
        a min max prev s (fun p s' => k p s' cap)
  | Seq r1 r2 =>
      rmatch r1 prev s cap (fun p s' c => rmatch r2 p s' c k)
  | Alt r1 r2 =>
      match rmatch r1 prev s cap k with
      | Some x => Some x
      | None => rmatch r2 prev s cap k
      end
  | Group r1 =>
      rmatch r1 prev s cap
        (fun p s' _ =>
           k p s' (Some (substring 0 (String.length s - String.length s') s)))
  | WordB =>
      if xorb (word_before prev) (word_after s) then k prev s cap
      else None
  | Dollar =>
      match s with
      | EmptyString => k prev s cap
      | String "010"%char EmptyString => k prev s cap
      | _ => None
      end
  end.

End Cont.

(** A match starting exactly here: the text of the group and what is
    left of the input after the whole match. *)
Definition match_here (r : regex) (prev : option ascii) (s : string)
    : option (option string * string) :=
  rmatch r prev s None (fun _ rest cap => Some (cap, rest)).

(** The text [findall] and [group(1)] report for the capture group. *)
Definition group1 (cap : option string) : string := default "" cap.

(** The scan of [re.findall]: leftmost matches, each search resuming
    where the previous match ended.  [skip] counts the characters
    still inside the previous match.  The patterns of the program take
    at least one character per match (lemma [program_match] below), so
    the scan always moves on by the length of the match. *)
Fixpoint scan (r : regex) (prev : option ascii) (s : string)
    (skip : nat) : list string :=
  match skip with
  | S n =>
      match s with
      | String c s' => scan r (Some c) s' n
      | EmptyString => []
      end
  | 0 =>
      match match_here r prev s with
      | Some (cap, rest) =>
          group1 cap ::
            match s with
            | String c s' =>
                scan r (Some c) s'
                  (pred (String.length s - String.length rest))
            | EmptyString => []
            end
      | None =>
          match s with
          | String c s' => scan r (Some c) s' 0
          | EmptyString => []
          end
      end
  end.

(** [re.findall(r, s)] for a pattern with one capture group. *)
Definition findall (r : regex) (s : string) : list string :=
  scan r None s 0.

Fixpoint search_from (r : regex) (prev : option ascii) (s : string)
    : option (option string) :=
  match match_here r prev s with
  | Some (cap, _) => Some cap
  | None =>
      match s with
      | String c s' => search_from r (Some c) s'
      | EmptyString => None
      end
  end.

(** [re.search(r, s)]: the capture of the leftmost match, if any. *)
Definition search (r : regex) (s : string) : option (option string) :=
  search_from r None s.

End Matcher.

(** Pattern-building shorthands. *)
Definition star (a : atom) : regex := Repeat a 0 None true.
Definition plus (a : atom) : regex := Repeat a 1 None true.
Definition opt (a : atom) : regex := Repeat a 0 (Some 1) true.
Definition digit : atom := ASet false [IDigit].
Definition space : atom := ASet false [ISpace].
Definition letter : atom := ASet false [IRange "A" "Z"; IRange "a" "z"].

Fixpoint alts (l : list string) : regex :=
  match l with
  | [] => Lit ""
  | [x] => Lit x
  | x :: l' => Alt (Lit x) (alts l')
  end.

End Re.

(** ** Iteration order of Python sets

    [list(set(l))] and [for x in set(l)] enumerate the distinct members
    of [l] in an order the language leaves open and that changes from
    one process to the next (string hashing is salted).  A [set_order]
    is one such order: what a given process enumerates for the set
    built by inserting the members of [l]. *)

Record set_order : Type := SetOrder {
  enum :> list string -> list string;
  enum_NoDup : forall l, NoDup (enum l);
  enum_elem : forall l x, x ∈ enum l <-> x ∈ l
}.

(** One order a process may use: each member once, at the place of its
    last insertion. *)
Definition insertion_order : set_order :=
  SetOrder remove_dups
    (fun l => NoDup_remove_dups l) (fun l x => elem_of_remove_dups l x).

(** Another one: the same members, enumerated backwards. *)
Definition reversed_order : set_order.
Proof.
  refine (SetOrder (fun l => reverse (remove_dups l)) _ _).
  - intros l. rewrite reverse_Permutation. apply NoDup_remove_dups.
  - intros l x. rewrite elem_of_reverse. apply elem_of_remove_dups.
Defined.

(** ** JSON values, exceptions and the program state *)

(** What [json.load] yields and [json.dump] accepts.  Numbers are
    integers: the counters of the roadmap are, and nothing below looks
    into any other number. *)
#[warnings="-register-all"]
Inductive value : Type :=
| VNone
| VBool (b : bool)
| VInt (n : Z)
| VStr (s : string)
| VList (l : list value)
| VDict (d : gmap string value).

(** Python's truth value of a JSON value. *)
Definition truthy (v : value) : bool :=
  match v with
  | VNone => false
  | VBool b => b
  | VInt n => negb (n =? 0)%Z
  | VStr s => negb (bool_decide (s = ""))
  | VList l => negb (bool_decide (l = []))
  | VDict d => negb (bool_decide (d = ∅))
  end.

Definition as_str (v : value) : option string :=
  match v with VStr s => Some s | _ => None end.

(** The strings of a list of strings. *)
Definition as_strings (v : value) : option (list string) :=
  match v with
  | VList l => mapM as_str l
  | _ => None
  end.

Definition of_strings (l : list string) : value := VList (VStr <$> l).

Definition py_len (v : value) : option nat :=
  match v with
  | VList l => Some (length l)
  | VDict d => Some (size d)
  | VStr s => Some (String.length s)
  | _ => None
  end.

Inductive exn : Type :=
| ConnectionError             (* requests could not reach the service *)
| JSONDecodeError             (* the response body is not JSON *)
| KeyError (key : string)
| TypeError
| AttributeError.

Inductive result (A : Type) : Type :=
| Ok (a : A)
| Raise (e : exn).
Arguments Ok {A} a.
Arguments Raise {A} e.

(** Answer of the generation service to one POST. *)
Inductive http_reply : Type :=
| Unreachable
| Body (json : option value).   (* [None]: a body that is not JSON *)

(** Outcome of the [try] block of [scrape_url]: the text of the page,
    or the message of the exception raised on the way. *)
Inductive fetched : Type :=
| Failed (e : string)
| Page (text : string).

Inductive event : Type :=
| Banner (ciclo_num : nat)             (* the "=== CICLO n ===" line *)
| Post (prompt : string)               (* requests.post(OLLAMA_URL, ...) *)
| Get (url : string)                   (* requests.get(url, timeout=10) *)
| Sleep (seconds : nat)                (* time.sleep *)
| Write (content : gmap string value). (* json.dump into ROADMAP_FILE *)

(** The outside world: the answers may depend on everything the program
    did so far. *)
Record world : Type := World {
  ollama : list event -> string -> http_reply;
  web : list event -> string -> fetched
}.

(** [roadmap] is the one dictionary object the program holds (the cycle
    receives a reference to it, updates it in place and returns it);
    [disk] is the content of ROADMAP_FILE, if the file exists; [log]
    lists the effects so far, oldest first. *)
Record state : Type := State {
  roadmap : gmap string value;
  disk : option (gmap string value);
  log : list event
}.

(** Computations that read and update the state and may raise. *)
Definition M (A : Type) : Type := state -> result A * state.

Global Instance M_ret : MRet M := fun A a s => (Ok a, s).

Global Instance M_bind : MBind M := fun A B f m s =>
  match m s with
  | (Ok a, s') => f a s'
  | (Raise e, s') => (Raise e, s')
  end.

Definition raise {A : Type} (e : exn) : M A := fun s => (Raise e, s).

Definition emit (e : event) : M unit := fun s =>
  (Ok (), State (roadmap s) (disk s) (log s ++ [e])).

Definition history : M (list event) := fun s => (Ok (log s), s).

(** [roadmap[key]] *)
Definition getitem (key : string) : M value := fun s =>
  match roadmap s !! key with
  | Some v => (Ok v, s)
  | None => (Raise (KeyError key), s)
  end.

(** [roadmap[key] = v] *)
Definition setitem (key : string) (v : value) : M unit := fun s =>
  (Ok (), State (<[key := v]> (roadmap s)) (disk s) (log s)).

(** [json.dump(roadmap, f)] on the freshly truncated ROADMAP_FILE, for
    a write that succeeds: the file then holds the roadmap.  A write
    that fails midway is not modelled. *)
Definition dump_roadmap : M unit := fun s =>
  (Ok (), State (roadmap s) (Some (roadmap s)) (log s ++ [Write (roadmap s)])).

Definition expect {A : Type} (o : option A) (e : exn) : M A :=
  match o with Some a => mret a | None => raise e end.

Definition lift {A : Type} (r : result A) : M A := fun s => (r, s).

(** ** [mia_symbolic_orchestrator.py] *)

Module Orchestrator.

Import Re.
Local Infix "·" := Seq (at level 41, right associativity).

Definition CYCLES : nat := 5.
Definition SLEEP_BETWEEN_CYCLES : nat := 2.

(** [generate_prompt] *)
Definition generate_prompt (symbols questions : list string) : string :=
  let q :=
    match questions with
    | q0 :: _ => q0
    | [] => "Approfondisci uno dei seguenti concetti: "
              +:+ Str.join ", " (take 5 symbols)
    end in
  "Rispondi in modo rigoroso e simbolico alla domanda: '" +:+ q
    +:+ "'. Usa i simboli chiave: " +:+ Str.join ", " (take 8 symbols) +:+ ".".

(** [web_search]; the question is not used by the source either. *)
Definition web_search (symbols : list string) (question : string)
    : list string :=
  let base := "https://en.wikipedia.org/wiki/" in
  map (fun s => base +:+ Str.replace_char " " "_" s) (take 3 symbols)
    ++ ["https://arxiv.org/search/?query="
          +:+ Str.join "+" (take 3 symbols) +:+ "&searchtype=all"].

(** The pattern "\b([A-Z][A-Za-z0-9_\-]{2,})\b". *)
Definition re_capitalised : regex :=
  WordB ·
  Group (Atom (ASet false [IRange "A" "Z"]) ·
         Repeat (ASet false [IRange "A" "Z"; IRange "a" "z";
                             IRange "0" "9"; IChar "_"; IChar "-"])
                2 None true) ·
  WordB.

Definition keywords : list string :=
  ["problem"; "theory"; "model"; "force"; "gravity"; "energy"; "wave";
   "system"; "phenomena"; "experiment"; "framework"; "trap"; "cloud";
   "atom"; "quantum"; "scaling"; "error"; "data"; "simulation";
   "universe"; "dimension"; "boson"; "relativity"; "symmetry";
   "inflation"; "black hole"; "wormhole"; "neutron star"; "supernova"].

(** The pattern "\b([A-Za-z]+\s(?:problem|theory|...|supernova))\b",
    with IGNORECASE. *)
Definition re_keyword_phrase : regex :=
  WordB · Group (plus letter · Atom space · alts keywords) · WordB.

(** The pattern of source line 65: a word boundary, the group of one
    or more letters and any digits, an optional caret, any digits, a
    word boundary. *)
Definition re_token : regex :=
  WordB · Group (plus letter · star digit) ·
  opt (AChar "^") · star digit · WordB.

(** [estrai_simboli_concetti]: the three [update]s insert the matches
    in this order; the set comprehension walks the first set and
    builds the second, which [list] then walks. *)
Definition estrai_simboli_concetti (E : set_order) (testo : string)
    : list string :=
  let simboli :=
    findall false re_capitalised testo
      ++ findall true re_keyword_phrase testo
      ++ findall false re_token testo in
  let simboli :=
    map Str.strip
      (filter (fun s => 2 < String.length (Str.strip s)) (E simboli)) in
  E simboli.

(** The pattern
    "(?:Open questions:|Domande aperte:|Questions:)([\s\S]+?)(?:\n\n|$)",
    with IGNORECASE. *)
Definition re_block : regex :=
  alts ["Open questions:"; "Domande aperte:"; "Questions:"] ·
  Group (Repeat (ASet false [ISpace; INotSpace]) 1 None false) ·
  Alt (Lit (String "010" (String "010" ""))) Dollar.

(** The pattern "\d+\.\s*(.+)". *)
Definition re_numbered : regex :=
  plus digit · Atom (AChar ".") · star space · Group (plus ADot).

(** The pattern "([A-Z][^\n\r\.!?]*\?)". *)
Definition re_question : regex :=
  Group (Atom (ASet false [IRange "A" "Z"]) ·
         star (ASet true [IChar "010"; IChar "013"; IChar ".";
                          IChar "!"; IChar "?"]) ·
         Atom (AChar "?")).

(** The list [domande] before it is turned into a set. *)
Definition domande_trovate (peer_review : string) : list string :=
  match search true re_block peer_review with
  | Some blocco => findall false re_numbered (group1 blocco)
  | None => []
  end ++ findall false re_question peer_review.

(** [estrai_domande_aperte] *)
Definition estrai_domande_aperte (E : set_order) (peer_review : string)
    : list string :=
  map Str.strip
    (filter (fun d => 10 < String.length (Str.strip d))
            (E (domande_trovate peer_review))).

(** *** The effectful part *)

Definition nl : string := String "010" "".

(** The module-level load of ROADMAP_FILE. *)
Definition default_roadmap : gmap string value :=
  {[ "focus_symbols" := VList [];
     "open_questions" := VList [];
     "operational_recommendations" := VList [] ]}.

Definition load_roadmap (file : option (gmap string value))
    : gmap string value :=
  default default_roadmap file.

Definition boot (file : option (gmap string value)) : state :=
  State (load_roadmap file) file [].

(** The orchestrator reads both lists as lists of strings: it joins
    them into prompts and hashes them into a set.  A value of another
    shape is reported as [TypeError], and at once: the program itself
    fails on such a value only where it uses it (the join of the first
    eight symbols, the set of line 113), so on roadmaps that hold
    something else than strings the model is stricter than the
    program. *)
Definition get_strings (key : string) : M (list string) :=
  v ← getitem key; expect (as_strings v) TypeError.

(** What [requests.post(...).json()["response"]] evaluates to. *)
Definition response_of (reply : http_reply) : result value :=
  match reply with
  | Unreachable => Raise ConnectionError
  | Body None => Raise JSONDecodeError
  | Body (Some (VDict d)) =>
      match d !! "response" with
      | Some v => Ok v
      | None => Raise (KeyError "response")
      end
  | Body (Some _) => Raise TypeError
  end.

(** What [scrape_url] returns for each outcome of its [try] block. *)
Definition scraped (url : string) (outcome : fetched) : string :=
  match outcome with
  | Page text => Str.slice_to 2000 text
  | Failed e => "[Errore scraping " +:+ url +:+ ": " +:+ e +:+ "]"
  end.

Section World.

Variable E : set_order.
Variable W : world.

(** [ask_ollama]: one POST, then [response.json()["response"]]. *)
Definition ask_ollama (prompt : string) : M value :=
  h ← history;
  emit (Post prompt);;
  lift (response_of (ollama W h prompt)).

(** [scrape_url]: whatever goes wrong inside [try] becomes the
    returned text. *)
Definition scrape_url (url : string) : M string :=
  h ← history;
  emit (Get url);;
  mret (scraped url (web W h url)).

(** The loop over [links] of [ciclo_symbolic]. *)
Fixpoint scrape_all (links : list string) : M (list string) :=
  match links with
  | [] => mret []
  | url :: rest =>
      testo ← scrape_url url;
      emit (Sleep 1);;
      fonti ← scrape_all rest;
      mret (Str.slice_to 500 testo :: fonti)
  end.

Definition peer_prompt (risposta : string) (fonti : list string)
    : string :=
  "Risposta simbolica generata:" +:+ nl +:+ risposta +:+ nl +:+ nl
    +:+ "Fonti web correlate:" +:+ nl +:+ Str.join "" fonti
    +:+ nl +:+ nl
    +:+ "Fai una peer review simbolica, segnala punti deboli, suggerisci miglioramenti e nuove domande di ricerca. Elenca chiaramente le domande aperte o i dubbi che rimangono.".

(** Lines 113 and 114: the update of the roadmap that ends a cycle. *)
Definition aggiorna_roadmap
    (simboli_risposta simboli_review domande_aperte : list string)
    : M unit :=
  focus ← get_strings "focus_symbols";
  setitem "focus_symbols"
    (of_strings (E (focus ++ simboli_risposta ++ simboli_review)));;
  setitem "open_questions" (of_strings domande_aperte).

(** [ciclo_symbolic(roadmap, ciclo_num)], on the roadmap object of
    the state.  Of its prints only the banner is kept, as the event
    that marks the start of the cycle. *)
Definition ciclo_symbolic (ciclo_num : nat) : M unit :=
  emit (Banner ciclo_num);;
  symbols ← get_strings "focus_symbols";
  questions ← get_strings "open_questions";
  risposta ← ask_ollama (generate_prompt symbols questions);
  risposta ← expect (as_str risposta) TypeError;
  let simboli_risposta := estrai_simboli_concetti E risposta in
  let links := web_search symbols (hd "" questions) in
  fonti ← scrape_all links;
  review ← ask_ollama (peer_prompt risposta fonti);
  review ← expect (as_str review) TypeError;
  let simboli_review := estrai_simboli_concetti E review in
  let domande_aperte := estrai_domande_aperte E review in
  aggiorna_roadmap simboli_risposta simboli_review domande_aperte.

(** The body of the [for] loop of the entry point, for the cycle
    numbers still to run.  [visualizza_roadmap], which only prints, is
    left out. *)
Fixpoint cicli (numeri : list nat) : M unit :=
  match numeri with
  | [] => mret ()
  | ciclo :: rest =>
      ciclo_symbolic ciclo;;
      dump_roadmap;;
      domande ← getitem "open_questions";
      if truthy domande
      then emit (Sleep SLEEP_BETWEEN_CYCLES);; cicli rest
      else mret ()
  end.

(** The entry point: [for ciclo in range(CYCLES)]. *)
Definition main : M unit := cicli (seq 0 CYCLES).

End World.

End Orchestrator.

(** ** [mia_symbolic_generator.py]: [SymbolicGenerator.update_roadmap] *)

Module Generator.

(** What the four helper calls return and what the clock reads.  They
    draw on [random], [time] and a subprocess, so their results are
    inputs here. *)
Record generated : Type := Generated {
  new_symbols : list value;        (* generate_new_symbols() *)
  new_questions : list value;      (* generate_open_questions() *)
  new_sources : list value;        (* scrape_web_sources() *)
  peer_review : value;             (* run_peer_review(), None as VNone *)
  now : string                     (* datetime.now().isoformat() *)
}.

(** The roadmap [load_roadmap] builds when there is no usable file. *)
Definition default_roadmap (now : string) : gmap string value :=
  {[ "metadata" := VDict {[ "created" := VStr now;
                            "last_updated" := VStr now;
                            "version" := VStr "2.0";
                            "total_symbols" := VInt 0;
                            "total_questions" := VInt 0 ]};
     "focus_symbols" := VList [];
     "open_questions" := VList [];
     "operational_recommendations" := VList [];
     "symbolic_connections" := VList [];
     "web_sources" := VList [];
     "peer_reviews" := VList [] ]}.

Definition load_roadmap (now : string) (file : option (gmap string value))
    : gmap string value :=
  default (default_roadmap now) file.

Definition boot (now : string) (file : option (gmap string value))
    : state :=
  State (load_roadmap now file) file [].

(** [self.roadmap[key].extend(items)] *)
Definition extend (key : string) (items : list value) : M unit :=
  v ← getitem key;
  match v with
  | VList l => setitem key (VList (l ++ items))
  | _ => raise AttributeError
  end.

(** [self.roadmap["metadata"][key] = v] *)
Definition set_metadata (key : string) (v : value) : M unit :=
  m ← getitem "metadata";
  match m with
  | VDict d => setitem "metadata" (VDict (<[key := v]> d))
  | _ => raise TypeError
  end.

(** [len(self.roadmap[key])] *)
Definition len_of (key : string) : M nat :=
  v ← getitem key; expect (py_len v) TypeError.

Definition recommendations (g : generated) : value :=
  VList
    [ VDict {[ "type" := VStr "symbol_connection";
               "description" :=
                 VStr ("Esplora connessioni tra "
                         +:+ pretty (length (new_symbols g))
                         +:+ " nuovi simboli");
               "priority" := VStr "high" ]};
      VDict {[ "type" := VStr "question_resolution";
               "description" :=
                 VStr ("Risolvi " +:+ pretty (length (new_questions g))
                         +:+ " domande aperte");
               "priority" := VStr "medium" ]};
      VDict {[ "type" := VStr "source_validation";
               "description" := VStr "Valida fonti web estratte";
               "priority" := VStr "low" ]} ].

(** [update_roadmap], from the comment "Aggiorna roadmap" on. *)
Definition update_roadmap (g : generated) : M unit :=
  extend "focus_symbols" (new_symbols g);;
  extend "open_questions" (new_questions g);;
  extend "web_sources" (new_sources g);;
  (if truthy (peer_review g)
   then extend "peer_reviews" [peer_review g]
   else mret ());;
  set_metadata "last_updated" (VStr (now g));;
  n ← len_of "focus_symbols";
  set_metadata "total_symbols" (VInt (Z.of_nat n));;
  n ← len_of "open_questions";
  set_metadata "total_questions" (VInt (Z.of_nat n));;
  setitem "operational_recommendations" (recommendations g);;
  dump_roadmap.

End Generator.

(** * Properties *)

Import Orchestrator.

(** ** Vocabulary of the statements *)

(** A computation that leaves the roadmap object and the file alone. *)
Definition frame {A : Type} (m : M A) : Prop :=
  forall s r s', m s = (r, s') -> roadmap s' = roadmap s /\ disk s' = disk s.

(** A computation that leaves them alone whenever it raises. *)
Definition atomic {A : Type} (m : M A) : Prop :=
  forall s e s', m s = (Raise e, s') ->
    roadmap s' = roadmap s /\ disk s' = disk s.

(** A computation that logs nothing. *)
Definition silent {A : Type} (m : M A) : Prop :=
  forall s r s', m s = (r, s') -> log s' = log s.

(** The generation request [prompt], sent after the events [h], fails:
    the service is unreachable or its body has no usable "response". *)
Definition request_fails (W : world) (h : list event) (prompt : string)
    : Prop :=
  exists e, response_of (ollama W h prompt) = Raise e.

(** A computation that only appends to the log, and raises when one of
    the generation requests it sends fails. *)
Definition posts_checked (W : world) {A : Type} (m : M A) : Prop :=
  forall s r s', m s = (r, s') ->
    exists evs, log s' = log s ++ evs /\
      forall pre p post, evs = pre ++ Post p :: post ->
        request_fails W (log s ++ pre) p -> exists e, r = Raise e.

(** The events inside a cycle: requests, fetches and the pacing sleeps. *)
Definition inner (e : event) : Prop :=
  match e with
  | Post _ | Get _ | Sleep 1 => True
  | _ => False
  end.

(** A computation whose events are all of that kind. *)
Definition quiet {A : Type} (m : M A) : Prop :=
  forall s r s', m s = (r, s') ->
    exists evs, log s' = log s ++ evs /\ Forall inner evs.

(** The strings under [key] in a saved or in-memory roadmap. *)
Definition strings_at (key : string) (r : gmap string value)
    : option (list string) :=
  r !! key ≫= as_strings.

(** The number of cycles started in a run: one banner each. *)
Fixpoint cycles_started (evs : list event) : nat :=
  match evs with
  | [] => 0
  | Banner _ :: evs' => S (cycles_started evs')
  | _ :: evs' => cycles_started evs'
  end.



(** A computation that leaves the entry [key] of the roadmap alone. *)
Definition keeps (key : string) {A : Type} (m : M A) : Prop :=
  forall s r s', m s = (r, s') -> roadmap s' !! key = roadmap s !! key.

(** A computation that leaves the list under [key] alone or appends
    [x] to it. *)
Definition appends (key : string) (x : value) {A : Type} (m : M A) : Prop :=
  forall s r s', m s = (r, s') ->
    roadmap s' !! key = roadmap s !! key \/
    exists old,
      roadmap s !! key = Some (VList old) /\
      roadmap s' !! key = Some (VList (old ++ [x])).

(** The counter [name] of the metadata of a roadmap. *)
Definition counter (name : string) (c : gmap string value) : option value :=
  c !! "metadata" ≫= fun v =>
    match v with VDict m => m !! name | _ => None end.

(** The length of the list under [key] in a roadmap. *)
Definition length_at (key : string) (c : gmap string value) : option nat :=
  c !! key ≫= py_len.

(** ** Concrete worlds and roadmaps *)

(** A well-formed answer of the generation service carrying [text]. *)
Definition answer (text : string) : http_reply :=
  Body (Some (VDict {[ "response" := VStr text ]})).

(** The number of generation requests among the events [h]. *)
Fixpoint requests (h : list event) : nat :=
  match h with
  | [] => 0
  | Post _ :: h' => S (requests h')
  | _ :: h' => requests h'
  end.

(** The service is down and no page can be fetched. *)
Definition W_down : world :=
  World (fun _ _ => Unreachable) (fun _ _ => Failed "timed out").

(** The service answers, but without the "response" field. *)
Definition W_malformed : world :=
  World (fun _ _ => Body (Some (VDict {[ "error" := VStr "model not found" ]})))
        (fun _ _ => Failed "timed out").

Definition scenario_reply : string :=
  "The Triple_product and Lawson_criterion interact...".

Definition scenario_review : string :=
  "Open questions:" +:+ nl +:+ "1. What limits Triple_product?"
    +:+ nl +:+ "2. Can Q_plasma exceed 5?".

(** The end-to-end scenario of the specification: in every cycle the
    first request is answered with the reply and the second with the
    review; no page can be fetched. *)
Definition W_scenario : world :=
  World (fun h _ => answer (if Nat.even (requests h)
                            then scenario_reply else scenario_review))
        (fun _ _ => Failed "timed out").

(** The same, with a review that raises no question. *)
Definition W_settled : world :=
  World (fun h _ => answer (if Nat.even (requests h)
                            then scenario_reply
                            else "The derivation looks consistent."))
        (fun _ _ => Failed "timed out").

(** The roadmap file [create_initial_roadmap] of start_mia_system.py
    writes, which is also the default roadmap of the generator. *)
Definition initial_roadmap : gmap string value :=
  Generator.default_roadmap "2026-01-01T00:00:00".

(** A roadmap with the symbols and the question of the scenario. *)
Definition scenario_roadmap : gmap string value :=
  <[ "focus_symbols" := of_strings ["Q_plasma"; "Lawson_criterion"] ]>
    (<[ "open_questions" := of_strings ["How does Q_plasma scale?"] ]>
       initial_roadmap).

(** One run of the generator's helpers. *)
Definition generated_once : Generator.generated :=
  Generator.Generated
    [VDict {[ "name" := VStr "Q_plasma" ]}]
    [VDict {[ "text" := VStr "Quali sono i limiti teorici del Q_plasma?" ]}]
    []
    (VDict {[ "reviewer" := VStr "AutoReviewer" ]})
    "2026-01-02T00:00:00".

(** A pattern every match of which takes at least one character. *)
Fixpoint consumes (r : Re.regex) : bool :=
  match r with
  | Re.Atom _ => true
  | Re.Lit l => match l with EmptyString => false | String _ _ => true end
  | Re.Repeat _ min _ _ => match min with 0 => false | S _ => true end
  | Re.Seq r1 r2 => consumes r1 || consumes r2
  | Re.Alt r1 r2 => consumes r1 && consumes r2
  | Re.Group r1 => consumes r1
  | Re.WordB | Re.Dollar => false
  end.

(** A pattern every match of which goes through its capture group. *)
Fixpoint captures (r : Re.regex) : bool :=
  match r with
  | Re.Group _ => true
  | Re.Seq r1 r2 => captures r1 || captures r2
  | Re.Alt r1 r2 => captures r1 && captures r2
  | _ => false
  end.

(** ** Counting the effects of a run *)

(** The number of pages fetched among the events [h]. *)
Fixpoint fetches (h : list event) : nat :=
  match h with
  | [] => 0
  | Get _ :: h' => S (fetches h')
  | _ :: h' => fetches h'
  end.

(** The seconds slept among the events [h]. *)
Fixpoint slept (h : list event) : nat :=
  match h with
  | [] => 0
  | Sleep n :: h' => n + slept h'
  | _ :: h' => slept h'
  end.

(** The events of the loop over [links] in a cycle: each page is
    fetched, then the program sleeps a second. *)
Definition pacing (links : list string) : list event :=
  flat_map (fun url => [Get url; Sleep 1]) links.

(** A computation that sends at most [p] requests, fetches at most [g]
    pages and sleeps at most [z] seconds. *)
Definition spends (p g z : nat) {A : Type} (m : M A) : Prop :=
  forall s r s', m s = (r, s') ->
    exists evs, log s' = log s ++ evs /\
      requests evs <= p /\ fetches evs <= g /\ slept evs <= z.

(** Whether the character [c] occurs in [s]. *)
Fixpoint contains (c : ascii) (s : string) : bool :=
  match s with
  | EmptyString => false
  | String x s' => bool_decide (x = c) || contains c s'
  end.

(** A computation after which the file holds the roadmap in memory,
    unless it has changed neither. *)
Definition persists {A : Type} (m : M A) : Prop :=
  forall s r s', m s = (r, s') ->
    (roadmap s' = roadmap s /\ disk s' = disk s) \/
    disk s' = Some (roadmap s').

(** A computation that loses none of the focus symbols. *)
Definition grows {A : Type} (m : M A) : Prop :=
  forall s r s' old, m s = (r, s') ->
    strings_at "focus_symbols" (roadmap s) = Some old ->
    exists new,
      strings_at "focus_symbols" (roadmap s') = Some new /\
      forall x, x ∈ old -> x ∈ new.

(** A computation that neither writes the file nor logs anything. *)
Definition no_write {A : Type} (m : M A) : Prop :=
  forall s r s', m s = (r, s') -> disk s' = disk s /\ log s' = log s.

(** A computation that has written and logged nothing when it raises. *)
Definition fails_clean {A : Type} (m : M A) : Prop :=
  forall s e s', m s = (Raise e, s') -> disk s' = disk s /\ log s' = log s.

(** The state of the generator once it has loaded [file] at time [now]
    and run [update_roadmap] on what its helpers returned. *)
Definition generator_run (now : string) (file : option (gmap string value))
    (g : Generator.generated) : result unit * state :=
  Generator.update_roadmap g (Generator.boot now file).

(** A computation after which the open questions are still a list of
    strings, if they were one. *)
Definition questions_kept {A : Type} (m : M A) : Prop :=
  forall s r s', m s = (r, s') ->
    is_Some (strings_at "open_questions" (roadmap s)) ->
    is_Some (strings_at "open_questions" (roadmap s')).

(** The text [x] occurs in [s]. *)
Definition occurs_in (x s : string) : Prop :=
  exists pre post, s = pre +:+ x +:+ post.

(** A text that does not start with white space. *)
Definition head_ok (s : string) : bool :=
  match s with
  | String c _ => negb (Chr.is_space c)
  | EmptyString => true
  end.

(** The text [t] lists the first [n] of [symbols] and nothing else: each
    of them occurs in it, two neighbours occur with ", " between them,
    and its length is that of the symbols and of the separators. *)
Definition lists (n : nat) (symbols : list string) (t : string) : Prop :=
  (forall i sym, i < n -> symbols !! i = Some sym -> occurs_in sym t) /\
  (forall i a b, S i < n -> symbols !! i = Some a ->
     symbols !! S i = Some b -> occurs_in (a +:+ ", " +:+ b) t) /\
  String.length t
    = sum_list_with String.length (take n symbols)
      + 2 * pred (length (take n symbols)).

(** ** The matcher *)

Section Matches.

Variable icase : bool.
Context {X : Type}.

Lemma lit_inv (l : string) prev s (k : option ascii -> string -> option X) x :
  Re.lit icase l prev s k = Some x ->
  exists p' s', k p' s' = Some x /\
    String.length s' + String.length l = String.length s.
Proof.
  revert prev s. induction l as [|c l IH]; intros prev s; cbn.
  - intros H. exists prev, s. split; [done|]. lia.
  - destruct s as [|c' s]; [done|]. destruct (Re.char_ok icase c c'); [|done].
    intros H. destruct (IH _ _ H) as (p' & s' & Hk & Hl).
    exists p', s'. split; [done|]. cbn. lia.
Qed.

Lemma rep_greedy_inv a min max prev s (k : option ascii -> string -> option X) x :
  Re.rep_greedy icase a min max prev s k = Some x ->
  exists p' s', k p' s' = Some x /\
    String.length s' + min <= String.length s.
Proof.
  revert min max prev. induction s as [|c s IH]; intros min max prev; cbn.
  - destruct min; [|done]. intros H. exists prev, EmptyString. split; [done|]. cbn; lia.
  - destruct (Re.atom_ok icase a c && Re.may_repeat max).
    + destruct (Re.rep_greedy icase a (pred min) (pred <$> max) (Some c) s k)
        as [y|] eqn:Hr.
      * intros [= <-]. destruct (IH _ _ _ Hr) as (p' & s' & Hk & Hl).
        exists p', s'. split; [done|]. lia.
      * destruct min; [|done]. intros H. exists prev, (String c s).
        split; [done|]. cbn; lia.
    + destruct min; [|done]. intros H. exists prev, (String c s).
      split; [done|]. cbn; lia.
Qed.

Lemma rep_lazy_inv a min max prev s (k : option ascii -> string -> option X) x :
  Re.rep_lazy icase a min max prev s k = Some x ->
  exists p' s', k p' s' = Some x /\
    String.length s' + min <= String.length s.
Proof.
  revert min max prev. induction s as [|c s IH]; intros min max prev.
  - destruct min; cbn; [|done]. destruct (k prev EmptyString) eqn:Hk; [|done].
    intros [= <-]. exists prev, EmptyString. split; [done|]. cbn; lia.
  - destruct min; cbn.
    + destruct (k prev (String c s)) eqn:Hk.
      * intros [= <-]. exists prev, (String c s). split; [done|]. cbn; lia.
      * destruct (Re.atom_ok icase a c && Re.may_repeat max); [|done].
        intros H. destruct (IH _ _ _ H) as (p' & s' & Hk' & Hl).
        exists p', s'. split; [done|]. lia.
    + destruct (Re.atom_ok icase a c && Re.may_repeat max); [|done].
      intros H. destruct (IH _ _ _ H) as (p' & s' & Hk' & Hl).
      exists p', s'. split; [done|]. lia.
Qed.

(** A match of [r] hands to what follows a shorter or equal rest, a
    strictly shorter one when [r] consumes, and a capture when [r]
    captures or one was there. *)
Lemma rmatch_inv (r : Re.regex) prev s cap
    (k : option ascii -> string -> option string -> option X) x :
  Re.rmatch icase r prev s cap k = Some x ->
  exists p' s' cap', k p' s' cap' = Some x /\
    String.length s' <= String.length s /\
    (consumes r = true -> String.length s' < String.length s) /\
    (is_Some cap \/ captures r = true -> is_Some cap').
Proof.
  revert prev s cap k.
  induction r as [a|l|a min max greedy|r1 IH1 r2 IH2|r1 IH1 r2 IH2|r1 IH1| |];
    intros prev s cap k; cbn [Re.rmatch consumes captures].
  - destruct s as [|c s]; [done|]. destruct (Re.atom_ok icase a c); [|done].
    intros H. exists (Some c), s, cap. cbn. repeat split; try done; try lia.
    by intros [|].
  - intros H. destruct (lit_inv _ _ _ _ _ H) as (p' & s' & Hk & Hl).
    exists p', s', cap. split; [done|]. split; [lia|]. split.
    + destruct l; [done|]. cbn in Hl. lia.
    + by intros [|].
  - intros H.
    assert (Hi : exists p' s', k p' s' cap = Some x /\
                   String.length s' + min <= String.length s).
    { destruct greedy; [by apply rep_greedy_inv in H|by apply rep_lazy_inv in H]. }
    destruct Hi as (p' & s' & Hk & Hl).
    exists p', s', cap. split; [done|]. split; [lia|]. split.
    + destruct min; [done|]. lia.
    + by intros [|].
  - intros H. destruct (IH1 _ _ _ _ H) as (p1 & s1 & c1 & H1 & L1 & C1 & G1).
    destruct (IH2 _ _ _ _ H1) as (p2 & s2 & c2 & H2 & L2 & C2 & G2).
    exists p2, s2, c2. split; [done|]. split; [lia|]. split.
    + intros [Hc|Hc]%orb_true_iff; [specialize (C1 Hc)|specialize (C2 Hc)]; lia.
    + intros [Hc|[Hc|Hc]%orb_true_iff]; apply G2; auto.
  - destruct (Re.rmatch icase r1 prev s cap k) as [y|] eqn:Hr.
    + intros [= <-]. destruct (IH1 _ _ _ _ Hr) as (p1 & s1 & c1 & H1 & L1 & C1 & G1).
      exists p1, s1, c1. split; [done|]. split; [done|]. split.
      * intros [Hc _]%andb_true_iff. auto.
      * intros [Hc|[Hc _]%andb_true_iff]; auto.
    + intros H. destruct (IH2 _ _ _ _ H) as (p1 & s1 & c1 & H1 & L1 & C1 & G1).
      exists p1, s1, c1. split; [done|]. split; [done|]. split.
      * intros [_ Hc]%andb_true_iff. auto.
      * intros [Hc|[_ Hc]%andb_true_iff]; auto.
  - intros H. destruct (IH1 _ _ _ _ H) as (p1 & s1 & c1 & H1 & L1 & C1 & G1).
    eexists p1, s1, _. split; [exact H1|]. split; [done|]. split; [done|].
    intros _. by eexists.
  - destruct (xorb _ _); [|done]. intros H. exists prev, s, cap.
    repeat split; try done. by intros [|].
  - intros H. exists prev, s, cap.
    assert (k prev s cap = Some x).
    { destruct s as [|c [|??]]; try done;
        by destruct c as [[] [] [] [] [] [] [] []]. }
    repeat split; try done. by intros [|].
Qed.

End Matches.

Lemma match_here_inv (icase : bool) (r : Re.regex) prev s cap rest :
  consumes r = true -> captures r = true ->
  Re.match_here icase r prev s = Some (cap, rest) ->
  String.length rest < String.length s /\ is_Some cap.
Proof.
  intros Hc Hg H. unfold Re.match_here in H.
  destruct (rmatch_inv _ _ _ _ _ _ _ H) as (p' & s' & cap' & [= -> ->] & _ & C & G).
  auto.
Qed.



(** Every pattern of the program takes at least one character per
    match and fills its group. *)
Lemma patterns_consume :
  Forall (fun r => consumes r = true /\ captures r = true)
    [re_capitalised; re_keyword_phrase; re_token; re_block; re_numbered;
     re_question].
Proof. repeat constructor. Qed.

(** So the scan of [findall] never meets an empty match, and the text
    it reports is always that of the group. *)
Lemma program_match (icase : bool) (r : Re.regex) prev s cap rest :
  r ∈ [re_capitalised; re_keyword_phrase; re_token; re_block; re_numbered;
       re_question] ->
  Re.match_here icase r prev s = Some (cap, rest) ->
  String.length rest < String.length s /\ is_Some cap.
Proof.
  intros Hr. pose proof patterns_consume as H.
  rewrite Forall_forall in H. destruct (H _ Hr) as [Hc Hg].
  by apply match_here_inv.
Qed.

(** ** Reasoning about computations *)

Lemma bind_run {A B : Type} (m : M A) (f : A -> M B) (s : state) :
  (m ≫= f) s =
  match m s with
  | (Ok a, s1) => f a s1
  | (Raise e, s1) => (Raise e, s1)
  end.
Proof. reflexivity. Qed.

Lemma frame_atomic {A : Type} (m : M A) : frame m -> atomic m.
Proof. intros H s e s' Hm. exact (H _ _ _ Hm). Qed.

Lemma frame_bind {A B : Type} (m : M A) (f : A -> M B) :
  frame m -> (forall a, frame (f a)) -> frame (m ≫= f).
Proof.
  intros Hm Hf s r s'. rewrite bind_run.
  destruct (m s) as [[a|e] s1] eqn:E1.
  - intros H2. destruct (Hm _ _ _ E1) as [<- <-]. exact (Hf _ _ _ _ H2).
  - intros [= <- <-]. exact (Hm _ _ _ E1).
Qed.

Lemma atomic_bind {A B : Type} (m : M A) (f : A -> M B) :
  frame m -> (forall a, atomic (f a)) -> atomic (m ≫= f).
Proof.
  intros Hm Hf s e s'. rewrite bind_run.
  destruct (m s) as [[a|e1] s1] eqn:E1.
  - intros H2. destruct (Hm _ _ _ E1) as [<- <-]. exact (Hf _ _ _ _ H2).
  - intros [= <- <-]. exact (Hm _ _ _ E1).
Qed.

Lemma frame_ret {A : Type} (a : A) : frame (mret a : M A).
Proof. by intros s r s' [= <- <-]. Qed.

Lemma frame_raise {A : Type} (e : exn) : frame (raise e : M A).
Proof. by intros s r s' [= <- <-]. Qed.

Lemma frame_lift {A : Type} (r : result A) : frame (lift r).
Proof. by intros s r' s' [= <- <-]. Qed.

Lemma frame_emit (e : event) : frame (emit e).
Proof. by intros s r s' [= <- <-]. Qed.

Lemma frame_history : frame history.
Proof. by intros s r s' [= <- <-]. Qed.

Lemma frame_getitem (key : string) : frame (getitem key).
Proof.
  intros s r s'. unfold getitem.
  by destruct (roadmap s !! key); intros [= <- <-].
Qed.

Lemma frame_expect {A : Type} (o : option A) (e : exn) : frame (expect o e).
Proof. destruct o; [apply frame_ret | apply frame_raise]. Qed.

Lemma frame_get_strings (key : string) : frame (get_strings key).
Proof.
  apply frame_bind; [apply frame_getitem | intros; apply frame_expect].
Qed.

Create HintDb frames.
#[local] Hint Resolve frame_ret frame_raise frame_lift frame_emit
  frame_history frame_getitem frame_expect frame_get_strings : frames.

Ltac frames :=
  repeat first
    [ apply frame_bind; [ | intros ? ]
    | progress eauto with frames ].

Lemma frame_ask_ollama W (prompt : string) : frame (ask_ollama W prompt).
Proof. unfold ask_ollama. frames. Qed.

Lemma frame_scrape_url W (url : string) : frame (scrape_url W url).
Proof. unfold scrape_url. frames. Qed.

Lemma frame_scrape_all W (links : list string) : frame (scrape_all W links).
Proof.
  induction links as [|url rest IH]; simpl.
  - apply frame_ret.
  - apply frame_bind; [apply frame_scrape_url | intros]. frames.
Qed.

#[local] Hint Resolve frame_ask_ollama frame_scrape_all : frames.

Lemma atomic_aggiorna_roadmap E (a b q : list string) :
  atomic (aggiorna_roadmap E a b q).
Proof.
  intros s e s'. unfold aggiorna_roadmap. rewrite bind_run.
  destruct (get_strings "focus_symbols" s) as [[focus|e1] s1] eqn:E1.
  - discriminate.
  - intros [= <- <-]. exact (frame_get_strings _ _ _ _ E1).
Qed.

(** A cycle that raises has not touched the roadmap, in memory or on
    file. *)
Lemma atomic_ciclo_symbolic E W (n : nat) : atomic (ciclo_symbolic E W n).
Proof.
  unfold ciclo_symbolic.
  do 8 (apply atomic_bind; [ by frames | intros ? ]).
  apply atomic_aggiorna_roadmap.
Qed.

Lemma ask_ollama_run W (p : string) (s : state) :
  ask_ollama W p s =
  (response_of (ollama W (log s) p),
   State (roadmap s) (disk s) (log s ++ [Post p])).
Proof. reflexivity. Qed.

Lemma scrape_url_run W (url : string) (s : state) :
  scrape_url W url s =
  (Ok (scraped url (web W (log s) url)),
   State (roadmap s) (disk s) (log s ++ [Get url])).
Proof. reflexivity. Qed.

(** Splitting a concatenation at an element that is not in its first part. *)
Lemma split_at_second {A : Type} (l1 l2 pre post : list A) (x : A) :
  l1 ++ l2 = pre ++ x :: post ->
  (exists mid, l1 = pre ++ x :: mid /\ post = mid ++ l2) \/
  (exists pre2, pre = l1 ++ pre2 /\ l2 = pre2 ++ x :: post).
Proof.
  revert pre. induction l1 as [|y l1 IH]; intros pre H; simpl in *.
  - right. exists pre. done.
  - destruct pre as [|z pre]; simpl in *.
    + injection H as -> <-. left. by exists l1.
    + injection H as -> H. destruct (IH _ H) as [(mid & -> & ->)|(pre2 & -> & ->)].
      * left. by exists mid.
      * right. by exists pre2.
Qed.

Lemma posts_checked_bind W {A B : Type} (m : M A) (f : A -> M B) :
  posts_checked W m -> (forall a, posts_checked W (f a)) ->
  posts_checked W (m ≫= f).
Proof.
  intros Hm Hf s r s'. rewrite bind_run.
  destruct (m s) as [[a|e] s1] eqn:E1.
  - intros H2. destruct (Hm _ _ _ E1) as (evs1 & L1 & C1).
    destruct (Hf _ _ _ _ H2) as (evs2 & L2 & C2).
    exists (evs1 ++ evs2). split.
    { by rewrite L2, L1, (assoc_L (++)). }
    intros pre p post Hsplit Hfail.
    destruct (split_at_second _ _ _ _ _ Hsplit)
      as [(mid & -> & ->)|(pre2 & -> & ->)].
    + destruct (C1 _ _ _ eq_refl Hfail) as [e He]. discriminate.
    + apply (C2 pre2 p post eq_refl). by rewrite L1, <-(assoc_L (++)).
  - intros [= <- <-]. destruct (Hm _ _ _ E1) as (evs1 & L1 & C1).
    exists evs1. split; [done|]. intros. by exists e.
Qed.

Lemma silent_posts_checked W {A : Type} (m : M A) :
  silent m -> posts_checked W m.
Proof.
  intros H s r s' Hm. exists []. split.
  - by rewrite (H _ _ _ Hm), (right_id_L [] (++)).
  - intros [|??] ?? [=].
Qed.

Lemma silent_quiet {A : Type} (m : M A) : silent m -> quiet m.
Proof.
  intros H s r s' Hm. exists []. split; [|constructor].
  by rewrite (H _ _ _ Hm), (right_id_L [] (++)).
Qed.

Lemma silent_ret {A : Type} (a : A) : silent (mret a : M A).
Proof. by intros s r s' [= <- <-]. Qed.
Lemma silent_raise {A : Type} (e : exn) : silent (raise e : M A).
Proof. by intros s r s' [= <- <-]. Qed.
Lemma silent_lift {A : Type} (r : result A) : silent (lift r).
Proof. by intros s r' s' [= <- <-]. Qed.
Lemma silent_getitem (key : string) : silent (getitem key).
Proof.
  intros s r s'. unfold getitem.
  by destruct (roadmap s !! key); intros [= <- <-].
Qed.
Lemma silent_setitem (key : string) (v : value) : silent (setitem key v).
Proof. by intros s r s' [= <- <-]. Qed.
Lemma silent_expect {A : Type} (o : option A) (e : exn) : silent (expect o e).
Proof. destruct o; [apply silent_ret | apply silent_raise]. Qed.
Lemma silent_bind {A B : Type} (m : M A) (f : A -> M B) :
  silent m -> (forall a, silent (f a)) -> silent (m ≫= f).
Proof.
  intros Hm Hf s r s'. rewrite bind_run.
  destruct (m s) as [[a|e] s1] eqn:E1.
  - intros H2. rewrite (Hf _ _ _ _ H2). exact (Hm _ _ _ E1).
  - intros [= <- <-]. exact (Hm _ _ _ E1).
Qed.
Lemma silent_get_strings (key : string) : silent (get_strings key).
Proof.
  apply silent_bind; [apply silent_getitem | intros; apply silent_expect].
Qed.
Lemma silent_aggiorna_roadmap E (a b q : list string) :
  silent (aggiorna_roadmap E a b q).
Proof.
  unfold aggiorna_roadmap.
  apply silent_bind; [apply silent_get_strings | intros].
  apply silent_bind; intros; apply silent_setitem.
Qed.

Lemma emit_posts_checked W (e : event) :
  (forall p, e <> Post p) -> posts_checked W (emit e).
Proof.
  intros Hne s r s' [= <- <-]. exists [e]. split; [done|].
  intros [|? [|??]] p post [=]. by destruct (Hne p).
Qed.

Lemma ask_ollama_posts_checked W (p : string) : posts_checked W (ask_ollama W p).
Proof.
  intros s r s'. rewrite ask_ollama_run. intros [= <- <-].
  exists [Post p]. split; [done|].
  intros [|? [|??]] q post [=]; subst.
  rewrite (right_id_L [] (++)). intros [e He]. by exists e.
Qed.

Lemma scrape_url_posts_checked W (url : string) :
  posts_checked W (scrape_url W url).
Proof.
  intros s r s'. rewrite scrape_url_run. intros [= <- <-].
  exists [Get url]. split; [done|].
  intros [|? [|??]] q post [=].
Qed.

Lemma scrape_all_posts_checked W (links : list string) :
  posts_checked W (scrape_all W links).
Proof.
  induction links as [|url rest IH]; simpl.
  - apply silent_posts_checked, silent_ret.
  - apply posts_checked_bind; [apply scrape_url_posts_checked | intros].
    apply posts_checked_bind; [by apply emit_posts_checked | intros].
    apply posts_checked_bind; [apply IH | intros].
    apply silent_posts_checked, silent_ret.
Qed.

Lemma ciclo_symbolic_posts_checked E W (n : nat) :
  posts_checked W (ciclo_symbolic E W n).
Proof.
  unfold ciclo_symbolic.
  apply posts_checked_bind; [by apply emit_posts_checked | intros].
  apply posts_checked_bind;
    [apply silent_posts_checked, silent_get_strings | intros].
  apply posts_checked_bind;
    [apply silent_posts_checked, silent_get_strings | intros].
  apply posts_checked_bind; [apply ask_ollama_posts_checked | intros].
  apply posts_checked_bind;
    [apply silent_posts_checked, silent_expect | intros].
  apply posts_checked_bind; [apply scrape_all_posts_checked | intros].
  apply posts_checked_bind; [apply ask_ollama_posts_checked | intros].
  apply posts_checked_bind;
    [apply silent_posts_checked, silent_expect | intros].
  apply silent_posts_checked, silent_aggiorna_roadmap.
Qed.

(** Claim C5.  When a generation request of a cycle fails (the service
    is unreachable, or its answer has no usable "response" field), the
    cycle raises, and the roadmap is as it was when the cycle started,
    in memory and on file: nothing is merged, replaced or written. *)
Theorem generation_failure_aborts_cycle E W (n : nat) (s s' : state)
    (r : result unit) (pre post : list event) (p : string) :
  ciclo_symbolic E W n s = (r, s') ->
  log s' = log s ++ pre ++ Post p :: post ->
  request_fails W (log s ++ pre) p ->
  (exists e, r = Raise e) /\ roadmap s' = roadmap s /\ disk s' = disk s.
Proof.
  intros Hrun Hlog Hfail.
  destruct (ciclo_symbolic_posts_checked E W n _ _ _ Hrun) as (evs & L & C).
  rewrite L in Hlog. apply (inj (app (log s))) in Hlog.
  destruct (C _ _ _ Hlog Hfail) as [e ->].
  split; [by exists e|]. exact (atomic_ciclo_symbolic E W n _ _ _ Hrun).
Qed.

Lemma as_strings_of_strings (l : list string) : as_strings (of_strings l) = Some l.
Proof.
  unfold as_strings, of_strings. induction l as [|x l IH]; [done|].
  rewrite fmap_cons. cbn. cbn in IH. rewrite IH. done.
Qed.

Lemma get_strings_run (key : string) (s : state) :
  get_strings key s =
  (match roadmap s !! key with
   | None => Raise (KeyError key)
   | Some v =>
       match as_strings v with Some l => Ok l | None => Raise TypeError end
   end, s).
Proof.
  unfold get_strings. rewrite bind_run. unfold getitem.
  destruct (roadmap s !! key) as [v|]; [|done]. cbn.
  by destruct (as_strings v).
Qed.

Lemma get_strings_Some (key : string) (s : state) (l : list string) :
  strings_at key (roadmap s) = Some l -> get_strings key s = (Ok l, s).
Proof.
  unfold strings_at. rewrite get_strings_run.
  destruct (roadmap s !! key) as [v|]; [|done]. cbn. by intros ->.
Qed.

Lemma get_strings_None (key : string) (s : state) :
  strings_at key (roadmap s) = None ->
  exists e, get_strings key s = (Raise e, s).
Proof.
  unfold strings_at. rewrite get_strings_run.
  destruct (roadmap s !! key) as [v|]; [|by eexists]. cbn.
  intros ->. by eexists.
Qed.

Lemma expect_run {A : Type} (o : option A) (e : exn) (s : state) :
  expect o e s = (match o with Some a => Ok a | None => Raise e end, s).
Proof. by destruct o. Qed.

Lemma scrape_all_run W (links : list string) (s : state) :
  exists fonti evs,
    scrape_all W links s =
      (Ok fonti, State (roadmap s) (disk s) (log s ++ evs)) /\
    Forall inner evs /\ length fonti = length links.
Proof.
  revert s. induction links as [|url rest IH]; intros s.
  - exists [], []. destruct s. by rewrite (right_id_L [] (++)).
  - cbn [scrape_all]. rewrite bind_run, scrape_url_run.
    rewrite bind_run. cbn [emit roadmap disk log].
    rewrite bind_run.
    match goal with |- context [scrape_all W rest ?s1] =>
      destruct (IH s1) as (fonti & evs & -> & Hin & Hlen) end.
    eexists _, (Get url :: Sleep 1 :: evs). split; [|split].
    + cbn. rewrite <-!(assoc_L (++)). done.
    + repeat constructor. done.
    + cbn. by rewrite Hlen.
Qed.

Lemma aggiorna_roadmap_run E (a b q : list string) (s : state) (focus : list string) :
  strings_at "focus_symbols" (roadmap s) = Some focus ->
  aggiorna_roadmap E a b q s =
  (Ok (),
   State (<["open_questions" := of_strings q]>
            (<["focus_symbols" := of_strings (E (focus ++ a ++ b))]>
               (roadmap s)))
         (disk s) (log s)).
Proof.
  intros H. unfold aggiorna_roadmap.
  rewrite bind_run, (get_strings_Some _ _ _ H). reflexivity.
Qed.

(** What a completed cycle did. *)
Lemma ciclo_symbolic_Ok E W (n : nat) (s s' : state) :
  ciclo_symbolic E W n s = (Ok (), s') ->
  exists symbols questions risposta fonti evs review,
    strings_at "focus_symbols" (roadmap s) = Some symbols /\
    strings_at "open_questions" (roadmap s) = Some questions /\
    response_of (ollama W (log s ++ [Banner n])
                   (generate_prompt symbols questions)) = Ok (VStr risposta) /\
    Forall inner evs /\
    response_of
      (ollama W (log s ++ Banner n :: Post (generate_prompt symbols questions) :: evs)
         (peer_prompt risposta fonti)) = Ok (VStr review) /\
    s' = State
           (<["open_questions" := of_strings (estrai_domande_aperte E review)]>
              (<["focus_symbols" :=
                   of_strings (E (symbols ++ estrai_simboli_concetti E risposta
                                    ++ estrai_simboli_concetti E review))]>
                 (roadmap s)))
           (disk s)
           (log s ++ Banner n :: Post (generate_prompt symbols questions)
              :: evs ++ [Post (peer_prompt risposta fonti)]).
Proof.
  unfold ciclo_symbolic. rewrite bind_run. cbn [emit].
  rewrite bind_run.
  destruct (strings_at "focus_symbols" (roadmap s)) as [symbols|] eqn:Hsym;
    [|by edestruct get_strings_None as [e ->]].
  erewrite get_strings_Some by exact Hsym.
  rewrite bind_run.
  destruct (strings_at "open_questions" (roadmap s)) as [questions|] eqn:Hq;
    [|by edestruct get_strings_None as [e ->]].
  erewrite get_strings_Some by exact Hq.
  rewrite bind_run, ask_ollama_run. cbn [roadmap disk log].
  destruct (response_of _) as [v1|] eqn:R1; [|discriminate].
  rewrite bind_run, expect_run.
  destruct v1 as [| | |risposta| |]; try discriminate. cbn [as_str].
  rewrite bind_run.
  match goal with |- context [scrape_all W ?l ?s1] =>
    destruct (scrape_all_run W l s1) as (fonti & evs & -> & Hin & _) end.
  cbn [roadmap disk log].
  rewrite bind_run, ask_ollama_run. cbn [roadmap disk log].
  destruct (response_of (ollama W _ (peer_prompt risposta fonti)))
    as [v2|] eqn:R2; [|discriminate].
  rewrite bind_run, expect_run.
  destruct v2 as [| | |review| |]; try discriminate. cbn [as_str].
  erewrite aggiorna_roadmap_run by exact Hsym.
  cbn [roadmap disk log]. intros [= <-].
  exists symbols, questions, risposta, fonti, evs, review.
  rewrite <-!(assoc_L (++)) in R2. cbn in R2.
  repeat split; try done.
  by rewrite <-!(assoc_L (++)).
Qed.

(** Claim C2.  After a completed cycle the open_questions of the roadmap
    are exactly the questions extracted from the review text of that
    cycle, the answer to its last request: the earlier questions are
    replaced, and an empty extraction leaves an empty list. *)
Theorem cycle_replaces_open_questions E W (n : nat) (s s' : state) :
  ciclo_symbolic E W n s = (Ok (), s') ->
  exists pre p review,
    log s' = pre ++ [Post p] /\
    response_of (ollama W pre p) = Ok (VStr review) /\
    roadmap s' !! "open_questions"
      = Some (of_strings (estrai_domande_aperte E review)) /\
    (estrai_domande_aperte E review = [] ->
     roadmap s' !! "open_questions" = Some (VList [])).
Proof.
  intros H.
  destruct (ciclo_symbolic_Ok _ _ _ _ _ H)
    as (symbols & questions & risposta & fonti & evs & review
        & _ & _ & _ & _ & R2 & ->).
  exists (log s ++ Banner n :: Post (generate_prompt symbols questions) :: evs),
    (peer_prompt risposta fonti), review.
  cbn [log roadmap]. split; [|split; [exact R2|]].
  - by rewrite <-(assoc_L (++)).
  - rewrite lookup_insert_eq. split; [done|]. by intros ->.
Qed.

Lemma aggiorna_roadmap_Ok E (a b q : list string) (s s1 : state) :
  aggiorna_roadmap E a b q s = (Ok (), s1) ->
  exists focus,
    strings_at "focus_symbols" (roadmap s) = Some focus /\
    s1 = State (<["open_questions" := of_strings q]>
                  (<["focus_symbols" := of_strings (E (focus ++ a ++ b))]>
                     (roadmap s)))
               (disk s) (log s).
Proof.
  destruct (strings_at "focus_symbols" (roadmap s)) as [focus|] eqn:H.
  - rewrite (aggiorna_roadmap_run _ _ _ _ _ _ H). intros [= <-]. by exists focus.
  - unfold aggiorna_roadmap. rewrite bind_run.
    by destruct (get_strings_None _ _ H) as [e ->].
Qed.

Lemma strings_at_insert (key : string) (l : list string) (r : gmap string value) :
  strings_at key (<[key := of_strings l]> r) = Some l.
Proof.
  unfold strings_at. rewrite lookup_insert_eq. apply as_strings_of_strings.
Qed.

Lemma strings_at_insert_ne (key k : string) (v : value) (r : gmap string value) :
  k <> key -> strings_at key (<[k := v]> r) = strings_at key r.
Proof. intros H. unfold strings_at. by rewrite lookup_insert_ne. Qed.

(** Two enumerations of sets with the same members are rearrangements
    of one another. *)
Lemma enum_Permutation (E E' : set_order) (l l' : list string) :
  (forall x, x ∈ l <-> x ∈ l') -> E l ≡ₚ E' l'.
Proof.
  intros H. apply NoDup_Permutation; [apply enum_NoDup..|].
  intros x. by rewrite !enum_elem.
Qed.

(** Claim C1.  Merging extracted symbols is idempotent: once the update
    that ends a cycle has merged the symbols [a] and [b], merging the
    same symbols again succeeds and yields the same set of focus
    symbols, with as many members, whatever the order in which either
    set is enumerated. *)
Theorem symbol_merge_idempotent (E E' : set_order) (a b q : list string)
    (s s1 : state) :
  aggiorna_roadmap E a b q s = (Ok (), s1) ->
  exists s2 l1 l2,
    aggiorna_roadmap E' a b q s1 = (Ok (), s2) /\
    strings_at "focus_symbols" (roadmap s1) = Some l1 /\
    strings_at "focus_symbols" (roadmap s2) = Some l2 /\
    (list_to_set l2 : gset string) = list_to_set l1 /\
    length l2 = length l1.
Proof.
  intros H1. destruct (aggiorna_roadmap_Ok _ _ _ _ _ _ H1) as (focus & Hf & ->).
  set (l1 := E (focus ++ a ++ b)).
  assert (Hl1 : strings_at "focus_symbols"
                  (<["open_questions" := of_strings q]>
                     (<["focus_symbols" := of_strings l1]> (roadmap s)))
                = Some l1).
  { rewrite strings_at_insert_ne by done. apply strings_at_insert. }
  eexists _, l1, (E' (l1 ++ a ++ b)). split; [|split; [|split; [|split]]].
  - by apply aggiorna_roadmap_run.
  - exact Hl1.
  - cbn [roadmap]. rewrite strings_at_insert_ne by done. apply strings_at_insert.
  - apply set_eq. intros x. rewrite !elem_of_list_to_set, enum_elem.
    unfold l1. rewrite !elem_of_app, enum_elem, !elem_of_app. tauto.
  - apply Permutation_length, NoDup_Permutation; [apply enum_NoDup..|].
    intros x. unfold l1. rewrite !enum_elem, !elem_of_app, enum_elem, !elem_of_app.
    tauto.
Qed.

(** *** Events of a cycle *)

Lemma quiet_bind {A B : Type} (m : M A) (f : A -> M B) :
  quiet m -> (forall a, quiet (f a)) -> quiet (m ≫= f).
Proof.
  intros Hm Hf s r s'. rewrite bind_run.
  destruct (m s) as [[a|e] s1] eqn:E1.
  - intros H2. destruct (Hm _ _ _ E1) as (evs1 & L1 & I1).
    destruct (Hf _ _ _ _ H2) as (evs2 & L2 & I2).
    exists (evs1 ++ evs2). split.
    + by rewrite L2, L1, (assoc_L (++)).
    + by apply Forall_app.
  - intros [= <- <-]. exact (Hm _ _ _ E1).
Qed.

Lemma quiet_ask_ollama W (p : string) : quiet (ask_ollama W p).
Proof.
  intros s r s'. rewrite ask_ollama_run. intros [= <- <-].
  exists [Post p]. split; [done|]. by repeat constructor.
Qed.

Lemma quiet_scrape_all W (links : list string) : quiet (scrape_all W links).
Proof.
  intros s r s' H.
  destruct (scrape_all_run W links s) as (fonti & evs & Hrun & Hin & _).
  rewrite Hrun in H. injection H as <- <-. by exists evs.
Qed.

Lemma ciclo_symbolic_events E W (n : nat) (s s' : state) (r : result unit) :
  ciclo_symbolic E W n s = (r, s') ->
  exists body, log s' = log s ++ Banner n :: body /\ Forall inner body.
Proof.
  unfold ciclo_symbolic. rewrite bind_run. cbn [emit]. intros H.
  match type of H with ?m _ = _ => assert (Hq : quiet m) end.
  { apply quiet_bind; [apply silent_quiet, silent_get_strings | intros].
    apply quiet_bind; [apply silent_quiet, silent_get_strings | intros].
    apply quiet_bind; [apply quiet_ask_ollama | intros].
    apply quiet_bind; [apply silent_quiet, silent_expect | intros].
    apply quiet_bind; [apply quiet_scrape_all | intros].
    apply quiet_bind; [apply quiet_ask_ollama | intros].
    apply quiet_bind; [apply silent_quiet, silent_expect | intros].
    apply silent_quiet, silent_aggiorna_roadmap. }
  destruct (Hq _ _ _ H) as (body & L & Hin). exists body.
  split; [|done]. rewrite L. cbn [log]. by rewrite <-(assoc_L (++)).
Qed.


(** *** The outer loop *)













Lemma enum_nil (E : set_order) : E [] = [].
Proof.
  destruct (E []) as [|x l] eqn:H; [done|].
  assert (Hx : x ∈ E []) by (rewrite H; left).
  apply enum_elem in Hx. by apply elem_of_nil in Hx.
Qed.

(** Claim C10.  Extraction is deterministic up to ordering: under any
    two enumeration orders of Python sets, each extractor returns
    rearrangements of the same strings for the same text. *)
Theorem extraction_deterministic_up_to_order (E1 E2 : set_order)
    (testo : string) :
  estrai_simboli_concetti E1 testo ≡ₚ estrai_simboli_concetti E2 testo /\
  estrai_domande_aperte E1 testo ≡ₚ estrai_domande_aperte E2 testo /\
  (forall x, x ∈ estrai_simboli_concetti E1 testo
             <-> x ∈ estrai_simboli_concetti E2 testo) /\
  (forall x, x ∈ estrai_domande_aperte E1 testo
             <-> x ∈ estrai_domande_aperte E2 testo).
Proof.
  assert (A : estrai_simboli_concetti E1 testo
              ≡ₚ estrai_simboli_concetti E2 testo).
  { unfold estrai_simboli_concetti. apply enum_Permutation. intros x.
    assert (P : forall l, E1 l ≡ₚ E2 l) by (intros; by apply enum_Permutation).
    by rewrite (P _). }
  assert (B : estrai_domande_aperte E1 testo
              ≡ₚ estrai_domande_aperte E2 testo).
  { unfold estrai_domande_aperte.
    assert (P : forall l, E1 l ≡ₚ E2 l) by (intros; by apply enum_Permutation).
    by rewrite (P _). }
  split; [done|]. split; [done|]. split; intros x.
  - by rewrite A.
  - by rewrite B.
Qed.

(** The two orders of the model do enumerate differently. *)
Example orders_differ :
  estrai_domande_aperte insertion_order
    "Is the first one fine? Is the second one fine?"
    = ["Is the first one fine?"; "Is the second one fine?"] /\
  estrai_domande_aperte reversed_order
    "Is the first one fine? Is the second one fine?"
    = ["Is the second one fine?"; "Is the first one fine?"].
Proof. split; vm_compute; reflexivity. Qed.

(** Claim C6.  Both extractors are total functions of the text; they
    return the empty list on the empty string and on any text in which
    none of their patterns matches, and every string they return is
    longer than 2, respectively 10, characters. *)
Theorem extractors_total (E : set_order) :
  estrai_simboli_concetti E "" = [] /\
  estrai_domande_aperte E "" = [] /\
  (forall testo,
     Re.findall false re_capitalised testo = [] ->
     Re.findall true re_keyword_phrase testo = [] ->
     Re.findall false re_token testo = [] ->
     estrai_simboli_concetti E testo = []) /\
  (forall peer_review,
     Re.search true re_block peer_review = None ->
     Re.findall false re_question peer_review = [] ->
     estrai_domande_aperte E peer_review = []) /\
  (forall testo x,
     x ∈ estrai_simboli_concetti E testo -> 2 < String.length x) /\
  (forall peer_review x,
     x ∈ estrai_domande_aperte E peer_review -> 10 < String.length x).
Proof.
  assert (A : forall testo,
     Re.findall false re_capitalised testo = [] ->
     Re.findall true re_keyword_phrase testo = [] ->
     Re.findall false re_token testo = [] ->
     estrai_simboli_concetti E testo = []).
  { intros testo H1 H2 H3. unfold estrai_simboli_concetti.
    rewrite H1, H2, H3. cbn [app]. rewrite enum_nil. cbn. apply enum_nil. }
  assert (B : forall peer_review,
     Re.search true re_block peer_review = None ->
     Re.findall false re_question peer_review = [] ->
     estrai_domande_aperte E peer_review = []).
  { intros t H1 H2. unfold estrai_domande_aperte, domande_trovate.
    rewrite H1, H2. cbn [app]. by rewrite enum_nil. }
  split; [by apply A|]. split; [by apply B|].
  split; [done|]. split; [done|]. split.
  - intros testo x. unfold estrai_simboli_concetti.
    rewrite enum_elem, list_elem_of_In, in_map_iff.
    intros (y & <- & Hy). apply list_elem_of_In in Hy.
    by apply list_elem_of_filter in Hy as [Hy _].
  - intros t x. unfold estrai_domande_aperte.
    rewrite list_elem_of_In, in_map_iff.
    intros (y & <- & Hy). apply list_elem_of_In in Hy.
    by apply list_elem_of_filter in Hy as [Hy _].
Qed.

Lemma extractors_total_witness :
  estrai_simboli_concetti insertion_order "12 + 34 = 46" = [] /\
  estrai_domande_aperte insertion_order "12 + 34 = 46" = [].
Proof.
  destruct (extractors_total insertion_order) as (_ & _ & A & B & _).
  split; [apply A | apply B]; vm_compute; reflexivity.
Defined.

Example generate_prompt_question :
  generate_prompt ["Q_plasma"; "Lawson_criterion"]
                  ["How does Q_plasma scale?"; "And then?"]
  = "Rispondi in modo rigoroso e simbolico alla domanda: 'How does Q_plasma scale?'. Usa i simboli chiave: Q_plasma, Lawson_criterion.".
Proof. reflexivity. Qed.

Example generate_prompt_fallback :
  generate_prompt ["a"; "b"; "c"; "d"; "e"; "f"; "g"; "h"; "i"; "j"] []
  = "Rispondi in modo rigoroso e simbolico alla domanda: 'Approfondisci uno dei seguenti concetti: a, b, c, d, e'. Usa i simboli chiave: a, b, c, d, e, f, g, h.".
Proof. reflexivity. Qed.

Lemma extend_run (key : string) (items : list value) (s : state) :
  Generator.extend key items s =
  match roadmap s !! key with
  | Some (VList l) =>
      (Ok (), State (<[key := VList (l ++ items)]> (roadmap s)) (disk s) (log s))
  | Some _ => (Raise AttributeError, s)
  | None => (Raise (KeyError key), s)
  end.
Proof.
  unfold Generator.extend. rewrite bind_run. unfold getitem.
  destruct (roadmap s !! key) as [[]|]; reflexivity.
Qed.

Lemma set_metadata_run (key : string) (v : value) (s : state) :
  Generator.set_metadata key v s =
  match roadmap s !! "metadata" with
  | Some (VDict d) =>
      (Ok (), State (<["metadata" := VDict (<[key := v]> d)]> (roadmap s))
                    (disk s) (log s))
  | Some _ => (Raise TypeError, s)
  | None => (Raise (KeyError "metadata"), s)
  end.
Proof.
  unfold Generator.set_metadata. rewrite bind_run. unfold getitem.
  destruct (roadmap s !! "metadata") as [[]|]; reflexivity.
Qed.

Lemma len_of_run (key : string) (s : state) :
  Generator.len_of key s =
  (match roadmap s !! key with
   | Some v => match py_len v with Some n => Ok n | None => Raise TypeError end
   | None => Raise (KeyError key)
   end, s).
Proof.
  unfold Generator.len_of. rewrite bind_run. unfold getitem.
  destruct (roadmap s !! key) as [v|]; [|done]. cbn. by destruct (py_len v).
Qed.

(** What a completed [update_roadmap] did. *)
Lemma update_roadmap_Ok (g : Generator.generated) (s s' : state) :
  Generator.update_roadmap g s = (Ok (), s') ->
  exists syms qs meta,
    roadmap s !! "focus_symbols" = Some (VList syms) /\
    roadmap s !! "open_questions" = Some (VList qs) /\
    roadmap s !! "metadata" = Some (VDict meta) /\
    (if truthy (Generator.peer_review g)
     then exists old,
       roadmap s !! "peer_reviews" = Some (VList old) /\
       roadmap s' !! "peer_reviews"
         = Some (VList (old ++ [Generator.peer_review g]))
     else roadmap s' !! "peer_reviews" = roadmap s !! "peer_reviews") /\
    roadmap s' !! "focus_symbols"
      = Some (VList (syms ++ Generator.new_symbols g)) /\
    roadmap s' !! "open_questions"
      = Some (VList (qs ++ Generator.new_questions g)) /\
    (exists meta',
       roadmap s' !! "metadata" = Some (VDict meta') /\
       meta' !! "total_symbols"
         = Some (VInt (Z.of_nat (length (syms ++ Generator.new_symbols g)))) /\
       meta' !! "total_questions"
         = Some (VInt (Z.of_nat (length (qs ++ Generator.new_questions g))))) /\
    disk s' = Some (roadmap s') /\
    log s' = log s ++ [Write (roadmap s')].
Proof.
  unfold Generator.update_roadmap.
  rewrite bind_run, extend_run.
  destruct (roadmap s !! "focus_symbols") as [[| | | |syms|]|] eqn:Hs;
    try discriminate.
  rewrite bind_run, extend_run. cbn [roadmap disk log].
  rewrite lookup_insert_ne by done.
  destruct (roadmap s !! "open_questions") as [[| | | |qs|]|] eqn:Hq;
    try discriminate.
  rewrite bind_run, extend_run. cbn [roadmap disk log].
  rewrite !lookup_insert_ne by done.
  destruct (roadmap s !! "web_sources") as [[| | | |srcs|]|] eqn:Hw;
    try discriminate.
  rewrite bind_run.
  set (r3 := <["web_sources" := _]> _).
  assert (Hr3 : forall k, k <> "web_sources" -> k <> "open_questions" ->
                  k <> "focus_symbols" -> r3 !! k = roadmap s !! k).
  { intros k ???. unfold r3. by rewrite !lookup_insert_ne. }
  assert (Hr3s : r3 !! "focus_symbols"
                 = Some (VList (syms ++ Generator.new_symbols g))).
  { unfold r3. rewrite !lookup_insert_ne by done. apply lookup_insert_eq. }
  assert (Hr3q : r3 !! "open_questions"
                 = Some (VList (qs ++ Generator.new_questions g))).
  { unfold r3. rewrite lookup_insert_ne by done. apply lookup_insert_eq. }
  clearbody r3.
  match goal with |- context [(if ?b then ?m1 else ?m2) ?s0] =>
    assert (Hpr : (exists r4,
      (if b then m1 else m2) s0 = (Ok (), State r4 (disk s) (log s)) /\
      (forall k, k <> "peer_reviews" -> r4 !! k = r3 !! k) /\
      (if b
       then exists old, roadmap s !! "peer_reviews" = Some (VList old) /\
              r4 !! "peer_reviews"
                = Some (VList (old ++ [Generator.peer_review g]))
       else r4 !! "peer_reviews" = roadmap s !! "peer_reviews"))
      \/ exists e s1, (if b then m1 else m2) s0 = (Raise e, s1))
  end.
  { destruct (truthy (Generator.peer_review g)).
    - rewrite extend_run. cbn [roadmap disk log]. rewrite Hr3 by done.
      destruct (roadmap s !! "peer_reviews") as [[| | | |old|]|] eqn:Hp;
        try (right; by eexists _, _).
      left. eexists. split; [done|]. split.
      + intros k ?. by rewrite lookup_insert_ne.
      + exists old. split; [done|]. apply lookup_insert_eq.
    - left. exists r3. split; [done|]. split; [done|]. by apply Hr3. }
  destruct Hpr as [(r4 & -> & Hr4 & Hpeer)|(e & s1 & ->)]; [|discriminate].
  rewrite bind_run, set_metadata_run. cbn [roadmap disk log].
  rewrite Hr4, Hr3 by done.
  destruct (roadmap s !! "metadata") as [[| | | | |meta]|] eqn:Hm;
    try discriminate.
  rewrite bind_run, len_of_run. cbn [roadmap disk log].
  rewrite lookup_insert_ne, Hr4, Hr3s by done. cbn [py_len].
  rewrite bind_run, set_metadata_run. cbn [roadmap disk log].
  rewrite lookup_insert_eq.
  rewrite bind_run, len_of_run. cbn [roadmap disk log].
  rewrite lookup_insert_ne, lookup_insert_ne, Hr4, Hr3q by done. cbn [py_len].
  rewrite bind_run, set_metadata_run. cbn [roadmap disk log].
  rewrite lookup_insert_eq.
  rewrite bind_run. cbn [setitem dump_roadmap roadmap disk log].
  intros [= <-]. cbn [roadmap disk log].
  exists syms, qs, meta. split; [done|]. split; [done|]. split; [done|].
  split; [|split; [|split; [|split; [|done]]]].
  - destruct (truthy (Generator.peer_review g)).
    + destruct Hpeer as (old & Ho & Hn). exists old. split; [done|].
      by rewrite !lookup_insert_ne.
    + by rewrite !lookup_insert_ne.
  - by rewrite !lookup_insert_ne, Hr4.
  - by rewrite !lookup_insert_ne, Hr4.
  - eexists. rewrite lookup_insert_ne by done. rewrite lookup_insert_eq.
    split; [done|]. split.
    + rewrite lookup_insert_ne by done. apply lookup_insert_eq.
    + apply lookup_insert_eq.
Qed.

(** The scenario of the specification, run for one cycle. *)
Example scenario_cycle :
  exists s',
    ciclo_symbolic insertion_order W_scenario 0 (boot (Some scenario_roadmap))
      = (Ok (), s') /\
    strings_at "open_questions" (roadmap s')
      = Some ["What limits Triple_product?"; "Can Q_plasma exceed 5?"] /\
    strings_at "focus_symbols" (roadmap s')
      = Some ["Lawson_criterion"; "The"; "and"; "interact";
              "Triple_product"; "Q_plasma"; "Open"; "questions"; "What";
              "limits"; "Can"; "exceed"].
Proof. eexists. split; [|split]; vm_compute; reflexivity. Qed.

Lemma generation_failure_aborts_cycle_witness :
  (exists e, (ciclo_symbolic insertion_order W_down 0 (boot None)).1 = Raise e)
  /\ roadmap (ciclo_symbolic insertion_order W_down 0 (boot None)).2
     = roadmap (boot None)
  /\ disk (ciclo_symbolic insertion_order W_down 0 (boot None)).2
     = disk (boot None).
Proof.
  apply (generation_failure_aborts_cycle insertion_order W_down 0 (boot None)
           _ _ [Banner 0] []
           (generate_prompt [] [])).
  - apply surjective_pairing.
  - vm_compute. reflexivity.
  - exists ConnectionError. reflexivity.
Defined.

Example missing_field_aborts_cycle :
  ciclo_symbolic insertion_order W_malformed 0 (boot (Some scenario_roadmap))
  = (Raise (KeyError "response"),
     State scenario_roadmap (Some scenario_roadmap)
       [Banner 0;
        Post (generate_prompt ["Q_plasma"; "Lawson_criterion"]
                              ["How does Q_plasma scale?"])]).
Proof. vm_compute. reflexivity. Qed.

Lemma cycle_replaces_open_questions_witness :
  exists pre p review,
    log (ciclo_symbolic insertion_order W_scenario 0
           (boot (Some scenario_roadmap))).2 = pre ++ [Post p] /\
    response_of (ollama W_scenario pre p) = Ok (VStr review) /\
    roadmap (ciclo_symbolic insertion_order W_scenario 0
               (boot (Some scenario_roadmap))).2 !! "open_questions"
      = Some (of_strings (estrai_domande_aperte insertion_order review)) /\
    (estrai_domande_aperte insertion_order review = [] ->
     roadmap (ciclo_symbolic insertion_order W_scenario 0
                (boot (Some scenario_roadmap))).2 !! "open_questions"
       = Some (VList [])).
Proof.
  apply (cycle_replaces_open_questions insertion_order W_scenario 0
           (boot (Some scenario_roadmap))).
  vm_compute. reflexivity.
Defined.

Lemma symbol_merge_idempotent_witness :
  exists s2 l1 l2,
    aggiorna_roadmap reversed_order ["Triple_product"; "Q_plasma"] ["Open"] []
      (aggiorna_roadmap insertion_order ["Triple_product"; "Q_plasma"]
         ["Open"] [] (boot (Some scenario_roadmap))).2 = (Ok (), s2) /\
    strings_at "focus_symbols"
      (roadmap (aggiorna_roadmap insertion_order ["Triple_product"; "Q_plasma"]
                  ["Open"] [] (boot (Some scenario_roadmap))).2) = Some l1 /\
    strings_at "focus_symbols" (roadmap s2) = Some l2 /\
    (list_to_set l2 : gset string) = list_to_set l1 /\
    length l2 = length l1.
Proof.
  apply (symbol_merge_idempotent insertion_order reversed_order
           ["Triple_product"; "Q_plasma"] ["Open"] []
           (boot (Some scenario_roadmap))).
  vm_compute. reflexivity.
Defined.


(** In the scenario all five cycles run, each followed by the sleep. *)
Example scenario_run :
  cycles_started
    (log (main insertion_order W_scenario (boot (Some scenario_roadmap))).2) = 5
  /\ last (log (main insertion_order W_scenario
                  (boot (Some scenario_roadmap))).2)
     = Some (Sleep 2).
Proof. split; vm_compute; reflexivity. Qed.

(** A review without questions ends the run after its cycle. *)
Example settled_run :
  cycles_started
    (log (main insertion_order W_settled (boot (Some scenario_roadmap))).2) = 1
  /\ (main insertion_order W_settled (boot (Some scenario_roadmap))).1 = Ok ()
  /\ strings_at "open_questions"
       (roadmap (main insertion_order W_settled
                   (boot (Some scenario_roadmap))).2) = Some [].
Proof. repeat split; vm_compute; reflexivity. Qed.

(** *** Entries a computation leaves alone *)

Lemma keeps_bind (key : string) {A B : Type} (m : M A) (f : A -> M B) :
  keeps key m -> (forall a, keeps key (f a)) -> keeps key (m ≫= f).
Proof.
  intros Hm Hf s r s'. rewrite bind_run.
  destruct (m s) as [[a|e] s1] eqn:E1.
  - intros H2. rewrite (Hf _ _ _ _ H2). exact (Hm _ _ _ E1).
  - intros [= <- <-]. exact (Hm _ _ _ E1).
Qed.

Lemma frame_keeps (key : string) {A : Type} (m : M A) : frame m -> keeps key m.
Proof. intros H s r s' Hm. by destruct (H _ _ _ Hm) as [-> _]. Qed.

Lemma keeps_setitem (key k : string) (v : value) :
  k <> key -> keeps key (setitem k v).
Proof. intros Hne s r s' [= <- <-]. cbn. by rewrite lookup_insert_ne. Qed.

Lemma keeps_dump_roadmap (key : string) : keeps key dump_roadmap.
Proof. by intros s r s' [= <- <-]. Qed.

Lemma keeps_extend (key k : string) (items : list value) :
  k <> key -> keeps key (Generator.extend k items).
Proof.
  intros Hne s r s'. rewrite extend_run.
  destruct (roadmap s !! k) as [[]|]; intros [= <- <-]; try done.
  cbn. by rewrite lookup_insert_ne.
Qed.

Lemma keeps_set_metadata (key k : string) (v : value) :
  "metadata" <> key -> keeps key (Generator.set_metadata k v).
Proof.
  intros Hne s r s'. rewrite set_metadata_run.
  destruct (roadmap s !! "metadata") as [[]|]; intros [= <- <-]; try done.
  cbn. by rewrite lookup_insert_ne.
Qed.

Lemma keeps_len_of (key k : string) : keeps key (Generator.len_of k).
Proof. intros s r s'. rewrite len_of_run. by intros [= <- <-]. Qed.

Lemma appends_extend (key : string) (x : value) :
  appends key x (Generator.extend key [x]).
Proof.
  intros s r s'. rewrite extend_run.
  destruct (roadmap s !! key) as [[| | | |old|]|] eqn:H;
    intros [= <- <-]; try by left.
  right. exists old. split; [done|]. cbn. apply lookup_insert_eq.
Qed.

Lemma keeps_appends (key : string) (x : value) {A : Type} (m : M A) :
  keeps key m -> appends key x m.
Proof. intros H s r s' Hm. left. exact (H _ _ _ Hm). Qed.

Lemma appends_bind_l (key : string) (x : value) {A B : Type}
    (m : M A) (f : A -> M B) :
  keeps key m -> (forall a, appends key x (f a)) -> appends key x (m ≫= f).
Proof.
  intros Hm Hf s r s'. rewrite bind_run.
  destruct (m s) as [[a|e] s1] eqn:E1.
  - intros H2. rewrite <-(Hm _ _ _ E1). exact (Hf _ _ _ _ H2).
  - intros [= <- <-]. left. exact (Hm _ _ _ E1).
Qed.

Lemma appends_bind_r (key : string) (x : value) {A B : Type}
    (m : M A) (f : A -> M B) :
  appends key x m -> (forall a, keeps key (f a)) -> appends key x (m ≫= f).
Proof.
  intros Hm Hf s r s'. rewrite bind_run.
  destruct (m s) as [[a|e] s1] eqn:E1.
  - intros H2. rewrite (Hf _ _ _ _ H2). exact (Hm _ _ _ E1).
  - intros [= <- <-]. exact (Hm _ _ _ E1).
Qed.

Lemma keeps_ciclo_symbolic E W (n : nat) (key : string) :
  key <> "focus_symbols" -> key <> "open_questions" ->
  keeps key (ciclo_symbolic E W n).
Proof.
  intros H1 H2 s [[]|e] s' H.
  - destruct (ciclo_symbolic_Ok _ _ _ _ _ H)
      as (? & ? & ? & ? & ? & ? & _ & _ & _ & _ & _ & ->).
    cbn. by rewrite !lookup_insert_ne.
  - by destruct (atomic_ciclo_symbolic _ _ _ _ _ _ H) as [-> _].
Qed.

Lemma keeps_cicli E W (numeri : list nat) (key : string) :
  key <> "focus_symbols" -> key <> "open_questions" ->
  keeps key (cicli E W numeri).
Proof.
  intros H1 H2. induction numeri as [|n rest IH]; cbn [cicli].
  - apply frame_keeps, frame_ret.
  - apply keeps_bind; [by apply keeps_ciclo_symbolic | intros ?].
    apply keeps_bind; [apply keeps_dump_roadmap | intros ?].
    apply keeps_bind; [apply frame_keeps, frame_getitem | intros v].
    destruct (truthy v); [|apply frame_keeps, frame_ret].
    apply keeps_bind; [apply frame_keeps, frame_emit | intros ?].
    exact IH.
Qed.

(** Whatever the run does, it leaves the metadata of the roadmap as it
    found it. *)
Lemma main_keeps_metadata E W : keeps "metadata" (main E W).
Proof. unfold main. apply keeps_cicli. all: done. Qed.

Lemma appends_update_roadmap (g : Generator.generated) :
  appends "peer_reviews" (Generator.peer_review g) (Generator.update_roadmap g).
Proof.
  unfold Generator.update_roadmap.
  do 3 (apply appends_bind_l; [by apply keeps_extend | intros ?]).
  apply appends_bind_r.
  - destruct (truthy (Generator.peer_review g)).
    + apply appends_extend.
    + apply keeps_appends, frame_keeps, frame_ret.
  - intros ?.
    repeat first
      [ by apply keeps_set_metadata
      | apply keeps_len_of
      | by apply keeps_setitem
      | apply keeps_dump_roadmap
      | apply keeps_bind; [ | intros ? ] ].
Qed.

(** Claim C8 fails on the orchestrator.  A completed cycle has asked
    the service for a peer review and got its text, the answer to its
    last request, yet peer_reviews is what it was: the review is mined
    for symbols and questions and then dropped, so a run never adds a
    record.  Started on the roadmap file that start_mia_system.py
    creates, the scenario run sends 10 requests, five of them for a
    review, and saves a file whose peer_reviews is still empty.
    [update_roadmap], which writes the same file, does append its review
    record when it is truthy.  What holds of the claim in both programs
    is that no record is removed or changed. *)
Theorem orchestrator_drops_peer_review :
  (forall E W n s s',
     ciclo_symbolic E W n s = (Ok (), s') ->
     exists pre p review,
       log s' = pre ++ [Post p] /\
       response_of (ollama W pre p) = Ok (VStr review) /\
       roadmap s' !! "peer_reviews" = roadmap s !! "peer_reviews") /\
  (forall E W s,
     roadmap (main E W s).2 !! "peer_reviews" = roadmap s !! "peer_reviews") /\
  ((main insertion_order W_scenario (boot (Some initial_roadmap))).1 = Ok () /\
   requests (log (main insertion_order W_scenario
                    (boot (Some initial_roadmap))).2) = 10 /\
   disk (main insertion_order W_scenario (boot (Some initial_roadmap))).2
     ≫= (fun c => c !! "peer_reviews") = Some (VList [])) /\
  (forall g s s',
     Generator.update_roadmap g s = (Ok (), s') ->
     if truthy (Generator.peer_review g)
     then exists old,
       roadmap s !! "peer_reviews" = Some (VList old) /\
       roadmap s' !! "peer_reviews"
         = Some (VList (old ++ [Generator.peer_review g]))
     else roadmap s' !! "peer_reviews" = roadmap s !! "peer_reviews") /\
  (forall g s r s',
     Generator.update_roadmap g s = (r, s') ->
     roadmap s' !! "peer_reviews" = roadmap s !! "peer_reviews" \/
     exists old,
       roadmap s !! "peer_reviews" = Some (VList old) /\
       roadmap s' !! "peer_reviews"
         = Some (VList (old ++ [Generator.peer_review g]))).
Proof.
  split; [|split; [|split; [|split]]].
  - intros E W n s s' H.
    destruct (ciclo_symbolic_Ok _ _ _ _ _ H)
      as (symbols & questions & risposta & fonti & evs & review
          & _ & _ & _ & _ & R2 & ->).
    exists (log s ++ Banner n :: Post (generate_prompt symbols questions) :: evs),
      (peer_prompt risposta fonti), review.
    cbn [log roadmap]. split; [|split; [exact R2|]].
    + by rewrite <-(assoc_L (++)).
    + by rewrite !lookup_insert_ne.
  - intros E W s.
    exact (keeps_cicli E W (seq 0 CYCLES) "peer_reviews" ltac:(done)
             ltac:(done) s _ _ (surjective_pairing _)).
  - repeat split; vm_compute; reflexivity.
  - intros g s s' H.
    by destruct (update_roadmap_Ok _ _ _ H) as (? & ? & ? & _ & _ & _ & Hp & _).
  - intros g s r s' H. exact (appends_update_roadmap g _ _ _ H).
Qed.

(** Claim C7 fails: what [scrape_url] returns carries no success mark,
    since a failed fetch and a page with the same text give the same
    result. *)
Lemma scrape_url_carries_no_success_mark :
  ~ exists success : string -> bool,
      forall W url s t s',
        scrape_url W url s = (Ok t, s') ->
        success t = match web W (log s) url with
                    | Page _ => true
                    | Failed _ => false
                    end.
Proof.
  intros (success & H).
  pose (Wp := World (fun _ _ => Unreachable)
                (fun _ _ => Page "[Errore scraping http://example.org: timed out]")).
  pose proof (H W_down "http://example.org" (boot None) _ _
                (scrape_url_run _ _ _)) as H1.
  pose proof (H Wp "http://example.org" (boot None) _ _
                (scrape_url_run _ _ _)) as H2.
  change (success "[Errore scraping http://example.org: timed out]" = false)
    in H1.
  change (success "[Errore scraping http://example.org: timed out]" = true)
    in H2.
  congruence.
Qed.

(** Claim C7, as amended.  [scrape_url] never raises and changes nothing
    but the log; after a failure it returns the non-empty text
    "[Errore scraping <url>: <error>]", after a success the first 2000
    characters of the page. *)
Theorem scrape_url_tolerant W (url : string) (s : state) :
  exists t,
    scrape_url W url s
      = (Ok t, State (roadmap s) (disk s) (log s ++ [Get url])) /\
    match web W (log s) url with
    | Failed e =>
        t = "[Errore scraping " +:+ url +:+ ": " +:+ e +:+ "]" /\ t <> ""
    | Page text => t = Str.slice_to 2000 text
    end.
Proof.
  exists (scraped url (web W (log s) url)). split; [apply scrape_url_run|].
  destruct (web W (log s) url) as [e|text]; [|done].
  split; [done|]. discriminate.
Qed.

(** X9.  A completed [update_roadmap] saves a roadmap whose metadata
    counters match its lists: total_symbols is the length of
    focus_symbols and total_questions that of open_questions. *)
Lemma update_roadmap_counters (g : Generator.generated) (s s' : state) :
  Generator.update_roadmap g s = (Ok (), s') ->
  exists c meta syms qs,
    disk s' = Some c /\
    c !! "metadata" = Some (VDict meta) /\
    c !! "focus_symbols" = Some (VList syms) /\
    c !! "open_questions" = Some (VList qs) /\
    meta !! "total_symbols" = Some (VInt (Z.of_nat (length syms))) /\
    meta !! "total_questions" = Some (VInt (Z.of_nat (length qs))).
Proof.
  intros H. destruct (update_roadmap_Ok _ _ _ H)
    as (syms & qs & meta & _ & _ & _ & _ & Hs & Hq & (meta' & Hm & Ht & Hu)
        & Hd & _).
  by exists (roadmap s'), meta', (syms ++ Generator.new_symbols g),
    (qs ++ Generator.new_questions g).
Qed.

(** Claim C4 fails on the orchestrator's save.  Started on the roadmap
    file that start_mia_system.py creates, the run saves a roadmap whose
    metadata still counts 0 symbols while focus_symbols holds 8. *)
Theorem orchestrator_save_keeps_stale_counters :
  disk (main insertion_order W_settled (boot (Some initial_roadmap))).2
    = Some (roadmap (main insertion_order W_settled
                       (boot (Some initial_roadmap))).2) /\
  counter "total_symbols"
    (roadmap (main insertion_order W_settled (boot (Some initial_roadmap))).2)
    = Some (VInt 0) /\
  length_at "focus_symbols"
    (roadmap (main insertion_order W_settled (boot (Some initial_roadmap))).2)
    = Some 8.
Proof. repeat split; vm_compute; reflexivity. Qed.

(** ** The source fetcher and the effects of a cycle *)

Lemma slice_to_length (n : nat) (s : string) :
  String.length (Str.slice_to n s) = n `min` String.length s.
Proof.
  unfold Str.slice_to. revert n. induction s as [|c s IH]; intros [|n]; cbn; auto.
Qed.

Lemma contains_app (c : ascii) (s t : string) :
  contains c (s +:+ t) = contains c s || contains c t.
Proof.
  induction s as [|x s IH]; [done|].
  change (String x s +:+ t) with (String x (s +:+ t)).
  cbn [contains]. by rewrite IH, orb_assoc.
Qed.

Lemma replace_char_contains (a : ascii) (b s : string) :
  contains a b = false -> contains a (Str.replace_char a b s) = false.
Proof.
  intros Hb. induction s as [|x s IH]; [done|]. cbn [Str.replace_char].
  rewrite contains_app, IH, orb_false_r.
  case_bool_decide as Hx; [done|]. cbn. by rewrite bool_decide_eq_false_2.
Qed.

(** X1.  [web_search] builds its links from the first three symbols
    alone: one encyclopedia link per symbol, in which every space of
    the symbol has become an underscore, then one search link; so it
    returns between one and four links, and the question plays no
    part. *)
Theorem web_search_links (symbols : list string) (question : string) :
  web_search symbols question = web_search (take 3 symbols) "" /\
  length (web_search symbols question) = S (3 `min` length symbols) /\
  (forall i sym, i < 3 -> symbols !! i = Some sym ->
     exists page,
       web_search symbols question !! i
         = Some ("https://en.wikipedia.org/wiki/" +:+ page) /\
       page = Str.replace_char " " "_" sym /\
       contains " " page = false) /\
  last (web_search symbols question)
    = Some ("https://arxiv.org/search/?query="
              +:+ Str.join "+" (take 3 symbols) +:+ "&searchtype=all").
Proof.
  split; [|split; [|split]].
  - unfold web_search. rewrite take_take. by replace (3 `min` 3) with 3 by done.
  - unfold web_search. rewrite length_app, length_map, length_take. cbn. lia.
  - intros i sym Hi Hs. eexists. split; [|split; [reflexivity|]].
    + unfold web_search. rewrite lookup_app_l.
      * change (map ?f ?l) with (f <$> l). rewrite list_lookup_fmap.
        rewrite lookup_take_lt by done. rewrite Hs. reflexivity.
      * rewrite length_map, length_take. apply lookup_lt_Some in Hs. lia.
    + by apply replace_char_contains.
  - unfold web_search. by rewrite last_snoc.
Qed.

Lemma web_search_links_witness :
  exists page,
    web_search ["black hole"; "Q_plasma"] "How?" !! 0
      = Some ("https://en.wikipedia.org/wiki/" +:+ page) /\
    page = Str.replace_char " " "_" "black hole" /\
    contains " " page = false.
Proof.
  destruct (web_search_links ["black hole"; "Q_plasma"] "How?")
    as (_ & _ & H & _).
  apply (H 0 "black hole"); [lia | reflexivity].
Defined.

(** What the loop over the links does and returns. *)
Lemma scrape_all_exact W (links : list string) (s : state) :
  exists fonti,
    scrape_all W links s =
      (Ok fonti, State (roadmap s) (disk s) (log s ++ pacing links)) /\
    length fonti = length links /\
    Forall (fun t => String.length t <= 500) fonti.
Proof.
  revert s. induction links as [|url rest IH]; intros s.
  - exists []. cbn. rewrite app_nil_r. by destruct s.
  - cbn [scrape_all]. rewrite bind_run, scrape_url_run.
    rewrite bind_run. cbn [emit roadmap disk log]. rewrite bind_run.
    match goal with |- context [scrape_all W rest ?s1] =>
      destruct (IH s1) as (fonti & -> & Hlen & Hall) end.
    eexists. split; [|split].
    + cbn. rewrite <-!(assoc_L (++)). reflexivity.
    + cbn. by rewrite Hlen.
    + constructor; [|done]. rewrite slice_to_length. lia.
Qed.


(** ** What a run spends *)

Lemma requests_app (l1 l2 : list event) :
  requests (l1 ++ l2) = requests l1 + requests l2.
Proof. induction l1 as [|[] l1 IH]; cbn; by rewrite ?IH. Qed.

Lemma fetches_app (l1 l2 : list event) :
  fetches (l1 ++ l2) = fetches l1 + fetches l2.
Proof. induction l1 as [|[] l1 IH]; cbn; by rewrite ?IH. Qed.

Lemma slept_app (l1 l2 : list event) :
  slept (l1 ++ l2) = slept l1 + slept l2.
Proof. induction l1 as [|[] l1 IH]; cbn; rewrite ?IH; lia. Qed.

Lemma spends_bind (p1 g1 z1 p2 g2 z2 : nat) {A B : Type}
    (m : M A) (f : A -> M B) :
  spends p1 g1 z1 m -> (forall a, spends p2 g2 z2 (f a)) ->
  spends (p1 + p2) (g1 + g2) (z1 + z2) (m ≫= f).
Proof.
  intros Hm Hf s r s'. rewrite bind_run.
  destruct (m s) as [[a|e] s1] eqn:E1.
  - intros H2. destruct (Hm _ _ _ E1) as (evs1 & L1 & ? & ? & ?).
    destruct (Hf _ _ _ _ H2) as (evs2 & L2 & ? & ? & ?).
    exists (evs1 ++ evs2). split; [by rewrite L2, L1, (assoc_L (++))|].
    rewrite requests_app, fetches_app, slept_app. lia.
  - intros [= <- <-]. destruct (Hm _ _ _ E1) as (evs1 & L1 & ? & ? & ?).
    exists evs1. split; [done|]. lia.
Qed.

Lemma spends_silent {A : Type} (m : M A) : silent m -> spends 0 0 0 m.
Proof.
  intros H s r s' Hm. exists []. rewrite (H _ _ _ Hm), app_nil_r. cbn. auto.
Qed.

Lemma spends_emit (e : event) :
  spends (requests [e]) (fetches [e]) (slept [e]) (emit e).
Proof. intros s r s' [= <- <-]. exists [e]. cbn [log]. auto. Qed.

Lemma spends_ask_ollama W (p : string) : spends 1 0 0 (ask_ollama W p).
Proof.
  intros s r s'. rewrite ask_ollama_run. intros [= <- <-].
  exists [Post p]. cbn. auto.
Qed.

Lemma pacing_counts (links : list string) :
  requests (pacing links) = 0 /\
  fetches (pacing links) = length links /\
  slept (pacing links) = length links.
Proof.
  induction links as [|url rest (IH1 & IH2 & IH3)]; [done|]. cbn.
  fold (pacing rest). rewrite IH1, IH2, IH3. auto.
Qed.

Lemma spends_scrape_all W (links : list string) :
  spends 0 (length links) (length links) (scrape_all W links).
Proof.
  intros s r s' H. destruct (scrape_all_exact W links s) as (fonti & Hrun & _).
  rewrite Hrun in H. injection H as <- <-. exists (pacing links).
  destruct (pacing_counts links) as (-> & -> & ->). cbn [log]. auto.
Qed.

Lemma spends_weaken (p g z p' g' z' : nat) {A : Type} (m : M A) :
  p <= p' -> g <= g' -> z <= z' -> spends p g z m -> spends p' g' z' m.
Proof.
  intros ??? H s r s' Hm. destruct (H _ _ _ Hm) as (evs & L & ? & ? & ?).
  exists evs. split; [done|]. lia.
Qed.

Lemma web_search_length (symbols : list string) (question : string) :
  length (web_search symbols question) = S (3 `min` length symbols).
Proof.
  unfold web_search. rewrite length_app, length_map, length_take.
  cbn [length]. lia.
Qed.

Lemma spends_ciclo_symbolic E W (n : nat) :
  spends 2 4 4 (ciclo_symbolic E W n).
Proof.
  unfold ciclo_symbolic.
  apply (spends_bind 0 0 0 2 4 4); [apply (spends_emit (Banner n)) | intros ?].
  apply (spends_bind 0 0 0 2 4 4);
    [apply spends_silent, silent_get_strings | intros symbols].
  apply (spends_bind 0 0 0 2 4 4);
    [apply spends_silent, silent_get_strings | intros ?].
  apply (spends_bind 1 0 0 1 4 4); [apply spends_ask_ollama | intros ?].
  apply (spends_bind 0 0 0 1 4 4);
    [apply spends_silent, silent_expect | intros ?].
  apply (spends_bind 0 4 4 1 0 0).
  { eapply spends_weaken; [done| | |apply spends_scrape_all];
      rewrite web_search_length; lia. }
  intros ?.
  apply (spends_bind 1 0 0 0 0 0); [apply spends_ask_ollama | intros ?].
  apply (spends_bind 0 0 0 0 0 0);
    [apply spends_silent, silent_expect | intros ?].
  apply spends_silent, silent_aggiorna_roadmap.
Qed.

Lemma spends_cicli E W (numeri : list nat) :
  spends (2 * length numeri) (4 * length numeri) (6 * length numeri)
    (cicli E W numeri).
Proof.
  induction numeri as [|n rest IH]; cbn [cicli].
  - apply spends_silent, silent_ret.
  - eapply spends_weaken;
      [| | |apply (spends_bind 2 4 4 (2 * length rest) (4 * length rest)
                     (2 + 6 * length rest));
            [apply spends_ciclo_symbolic|intros ?]];
      [cbn [length]; lia..|].
    eapply spends_weaken;
      [| | |apply (spends_bind 0 0 0 (2 * length rest) (4 * length rest)
                     (2 + 6 * length rest)); [|intros ?]];
      [lia..| |].
    { intros s r s' [= <- <-]. exists [Write (roadmap s)]. cbn. auto. }
    eapply spends_weaken;
      [| | |apply (spends_bind 0 0 0 (2 * length rest) (4 * length rest)
                     (2 + 6 * length rest));
            [apply spends_silent, silent_getitem|intros v]];
      [lia..|].
    destruct (truthy v).
    + eapply spends_weaken;
        [| | |apply (spends_bind 0 0 2 (2 * length rest) (4 * length rest)
                       (6 * length rest));
              [apply (spends_emit (Sleep 2))|intros ?; apply IH]]; lia.
    + eapply spends_weaken; [| | |apply spends_silent, silent_ret]; lia.
Qed.

(** X3.  A run sends at most 10 generation requests, fetches at most
    20 pages and sleeps at most 30 seconds, whatever the service and the
    web answer. *)
Theorem run_budget E W (s : state) :
  exists evs,
    log (main E W s).2 = log s ++ evs /\
    requests evs <= 10 /\ fetches evs <= 20 /\ slept evs <= 30.
Proof.
  destruct (spends_cicli E W (seq 0 CYCLES) s _ _ (surjective_pairing _))
    as (evs & L & H).
  exists evs. split; [exact L|]. exact H.
Qed.

(** ** What a run leaves behind *)

Lemma persists_cicli E W (numeri : list nat) : persists (cicli E W numeri).
Proof.
  induction numeri as [|n rest IH]; intros s r s'; cbn [cicli].
  - intros [= <- <-]. by left.
  - rewrite bind_run.
    destruct (ciclo_symbolic E W n s) as [[[]|e] s1] eqn:Hc.
    + rewrite bind_run. cbn [dump_roadmap]. rewrite bind_run.
      unfold getitem at 1. cbn [roadmap].
      destruct (roadmap s1 !! "open_questions") as [v|];
        [|intros [= <- <-]; by right].
      destruct (truthy v); [|intros [= <- <-]; by right].
      rewrite bind_run. cbn [emit roadmap disk log]. intros H.
      destruct (IH _ _ _ H) as [[-> ->]| ->]; by right.
    + intros [= <- <-]. left. exact (atomic_ciclo_symbolic _ _ _ _ _ _ Hc).
Qed.

Lemma cicli_Ok_last_save E W (numeri : list nat) :
  forall s s',
    numeri <> [] -> cicli E W numeri s = (Ok (), s') ->
    disk s' = Some (roadmap s') /\
    exists pre post,
      log s' = log s ++ pre ++ Write (roadmap s') :: post /\
      (post = [] \/ post = [Sleep SLEEP_BETWEEN_CYCLES]).
Proof.
  induction numeri as [|n rest IH]; intros s s' Hne; [done|]. cbn [cicli].
  rewrite bind_run.
  destruct (ciclo_symbolic E W n s) as [[[]|e] s1] eqn:Hc; [|discriminate].
  destruct (ciclo_symbolic_events _ _ _ _ _ _ Hc) as (body & L1 & _).
  rewrite bind_run. cbn [dump_roadmap]. rewrite bind_run.
  unfold getitem at 1. cbn [roadmap].
  destruct (roadmap s1 !! "open_questions") as [v|]; [|discriminate].
  destruct (truthy v).
  - rewrite bind_run. cbn [emit roadmap disk log].
    destruct rest as [|n' rest'].
    + intros [= <-]. cbn [roadmap disk log]. split; [done|].
      exists (Banner n :: body), [Sleep SLEEP_BETWEEN_CYCLES].
      split; [|by right]. rewrite L1.
      by rewrite <-!(assoc_L (++)).
    + intros H. destruct (IH _ _ ltac:(done) H) as (Hd & pre & post & L & Hp).
      split; [done|]. cbn [log] in L.
      exists (Banner n :: body ++ Write (roadmap s1)
                :: Sleep SLEEP_BETWEEN_CYCLES :: pre), post.
      split; [|done]. rewrite L, L1.
      repeat (rewrite <-?(assoc_L (++)); cbn [app]). done.
  - intros [= <-]. cbn [roadmap disk log]. split; [done|].
    exists (Banner n :: body), []. split; [|by left].
    rewrite L1. by rewrite <-!(assoc_L (++)).
Qed.

(** X4.  A run that ends without an exception has saved its final
    roadmap: the file holds exactly the roadmap in memory, and the save
    of that roadmap is the last event of the run, but for the sleep of
    2 seconds that follows the save of a fifth cycle. *)
Theorem run_persists E W (s : state) :
  (main E W s).1 = Ok () ->
  disk (main E W s).2 = Some (roadmap (main E W s).2) /\
  exists pre post,
    log (main E W s).2
      = log s ++ pre ++ Write (roadmap (main E W s).2) :: post /\
    (post = [] \/ post = [Sleep 2]).
Proof.
  intros H. apply (cicli_Ok_last_save E W (seq 0 CYCLES) s); [done|].
  unfold main in H. rewrite <-H. apply surjective_pairing.
Qed.

Lemma run_persists_witness :
  disk (main insertion_order W_settled (boot None)).2
    = Some (roadmap (main insertion_order W_settled (boot None)).2) /\
  exists pre post,
    log (main insertion_order W_settled (boot None)).2
      = log (boot None) ++ pre
          ++ Write (roadmap (main insertion_order W_settled (boot None)).2)
          :: post /\
    (post = [] \/ post = [Sleep 2]).
Proof.
  apply (run_persists insertion_order W_settled (boot None)).
  vm_compute. reflexivity.
Defined.

(** *** Focus symbols are never lost *)

Lemma grows_bind {A B : Type} (m : M A) (f : A -> M B) :
  grows m -> (forall a, grows (f a)) -> grows (m ≫= f).
Proof.
  intros Hm Hf s r s' old. rewrite bind_run.
  destruct (m s) as [[a|e] s1] eqn:E1.
  - intros H2 Hold. destruct (Hm _ _ _ _ E1 Hold) as (mid & Hmid & Hin).
    destruct (Hf _ _ _ _ _ H2 Hmid) as (new & Hnew & Hin').
    exists new. split; [done|]. auto.
  - intros [= <- <-] Hold. exact (Hm _ _ _ _ E1 Hold).
Qed.

Lemma keeps_grows {A : Type} (m : M A) : keeps "focus_symbols" m -> grows m.
Proof.
  intros H s r s' old Hm Hold. exists old. split; [|done].
  unfold strings_at in *. by rewrite (H _ _ _ Hm).
Qed.

Lemma grows_ciclo_symbolic E W (n : nat) : grows (ciclo_symbolic E W n).
Proof.
  intros s [[]|e] s' old H Hold.
  - destruct (ciclo_symbolic_Ok _ _ _ _ _ H)
      as (symbols & ? & risposta & ? & ? & review & Hs & _ & _ & _ & _ & ->).
    rewrite Hold in Hs. injection Hs as <-. eexists. split.
    + cbn [roadmap]. rewrite strings_at_insert_ne by done.
      apply strings_at_insert.
    + intros sym Hsym. rewrite enum_elem, elem_of_app. by left.
  - destruct (atomic_ciclo_symbolic _ _ _ _ _ _ H) as [-> _]. by exists old.
Qed.

Lemma grows_cicli E W (numeri : list nat) : grows (cicli E W numeri).
Proof.
  induction numeri as [|n rest IH]; cbn [cicli].
  - apply keeps_grows, frame_keeps, frame_ret.
  - apply grows_bind; [apply grows_ciclo_symbolic | intros ?].
    apply grows_bind; [apply keeps_grows, keeps_dump_roadmap | intros ?].
    apply grows_bind; [apply keeps_grows, frame_keeps, frame_getitem | intros v].
    destruct (truthy v); [|apply keeps_grows, frame_keeps, frame_ret].
    apply grows_bind; [apply keeps_grows, frame_keeps, frame_emit | by intros ?].
Qed.

(** X5.  A run never loses a focus symbol: however it ends, every symbol
    of the roadmap it started from is still among the focus symbols. *)
Theorem run_keeps_symbols E W (s : state) (old : list string) :
  strings_at "focus_symbols" (roadmap s) = Some old ->
  exists new,
    strings_at "focus_symbols" (roadmap (main E W s).2) = Some new /\
    forall x, x ∈ old -> x ∈ new.
Proof.
  intros Hold.
  exact (grows_cicli E W _ s _ _ old (surjective_pairing _) Hold).
Qed.

Lemma run_keeps_symbols_witness :
  exists new,
    strings_at "focus_symbols"
      (roadmap (main insertion_order W_settled
                  (boot (Some scenario_roadmap))).2) = Some new /\
    forall x, x ∈ ["Q_plasma"; "Lawson_criterion"] -> x ∈ new.
Proof.
  apply (run_keeps_symbols insertion_order W_settled
           (boot (Some scenario_roadmap))).
  vm_compute. reflexivity.
Defined.

(** ** Errors of a cycle *)


(** X6.  A cycle started on a roadmap without "focus_symbols", or with
    that list but without "open_questions", raises KeyError for the
    missing key right after its banner: no request is sent, no page is
    fetched and nothing is changed. *)
Theorem cycle_missing_key E W (n : nat) (s : state) :
  (roadmap s !! "focus_symbols" = None ->
   ciclo_symbolic E W n s
   = (Raise (KeyError "focus_symbols"),
      State (roadmap s) (disk s) (log s ++ [Banner n]))) /\
  (forall symbols,
     strings_at "focus_symbols" (roadmap s) = Some symbols ->
     roadmap s !! "open_questions" = None ->
     ciclo_symbolic E W n s
     = (Raise (KeyError "open_questions"),
        State (roadmap s) (disk s) (log s ++ [Banner n]))).
Proof.
  split.
  - intros H. unfold ciclo_symbolic. rewrite bind_run. cbn [emit].
    rewrite bind_run, get_strings_run. cbn [roadmap]. by rewrite H.
  - intros symbols Hs Hq. unfold ciclo_symbolic. rewrite bind_run. cbn [emit].
    rewrite bind_run. erewrite get_strings_Some by exact Hs.
    rewrite bind_run, get_strings_run. cbn [roadmap]. by rewrite Hq.
Qed.

Lemma cycle_missing_key_witness :
  ciclo_symbolic insertion_order W_scenario 0
    (State (delete "focus_symbols" scenario_roadmap) None [])
  = (Raise (KeyError "focus_symbols"),
     State (delete "focus_symbols" scenario_roadmap) None [Banner 0]) /\
  ciclo_symbolic insertion_order W_scenario 0
    (State (delete "open_questions" scenario_roadmap) None [])
  = (Raise (KeyError "open_questions"),
     State (delete "open_questions" scenario_roadmap) None [Banner 0]).
Proof.
  split.
  - refine (proj1 (cycle_missing_key insertion_order W_scenario 0
                     (State (delete "focus_symbols" scenario_roadmap) None []))
              _).
    vm_compute. reflexivity.
  - refine (proj2 (cycle_missing_key insertion_order W_scenario 0
                     (State (delete "open_questions" scenario_roadmap) None []))
              ["Q_plasma"; "Lawson_criterion"] _ _);
      vm_compute; reflexivity.
Defined.

Lemma as_strings_lookup (l : list value) (i : nat) (v : value) :
  l !! i = Some v -> as_str v = None -> as_strings (VList l) = None.
Proof.
  cbn [as_strings]. revert i. induction l as [|x l IH]; intros i; [done|].
  destruct i as [|i]; cbn.
  - intros [= ->] ->. done.
  - intros Hl Hv. rewrite (IH _ Hl Hv). cbn. by destruct (as_str x).
Qed.

(** X7.  A cycle started on a roadmap whose focus_symbols hold, among
    the first eight entries, something that is not a string (such as
    the symbol records the generator stores) raises TypeError right
    after its banner, before any request is sent. *)
Theorem cycle_rejects_symbol_records E W (n : nat) (s : state)
    (symbols questions : list value) (i : nat) (v : value) :
  roadmap s !! "focus_symbols" = Some (VList symbols) ->
  roadmap s !! "open_questions" = Some (VList questions) ->
  i < 8 -> symbols !! i = Some v -> as_str v = None ->
  ciclo_symbolic E W n s
  = (Raise TypeError, State (roadmap s) (disk s) (log s ++ [Banner n])).
Proof.
  intros Hs Hq Hi Hv Hn. unfold ciclo_symbolic. rewrite bind_run. cbn [emit].
  rewrite bind_run, get_strings_run. cbn [roadmap]. rewrite Hs.
  by rewrite (as_strings_lookup _ _ _ Hv Hn).
Qed.

Lemma cycle_rejects_symbol_records_witness :
  ciclo_symbolic insertion_order W_scenario 0
    (generator_run "2026-01-01T00:00:00" None generated_once).2
  = (Raise TypeError,
     State (roadmap (generator_run "2026-01-01T00:00:00" None generated_once).2)
           (disk (generator_run "2026-01-01T00:00:00" None generated_once).2)
           (log (generator_run "2026-01-01T00:00:00" None generated_once).2
              ++ [Banner 0])).
Proof.
  refine (cycle_rejects_symbol_records insertion_order W_scenario 0
            (generator_run "2026-01-01T00:00:00" None generated_once).2
            [VDict {[ "name" := VStr "Q_plasma" ]}]
            [VDict {[ "text" :=
                        VStr "Quali sono i limiti teorici del Q_plasma?" ]}]
            0 (VDict {[ "name" := VStr "Q_plasma" ]}) _ _ _ _ _);
    [vm_compute; reflexivity | vm_compute; reflexivity | lia
    | reflexivity | reflexivity].
Defined.

(** X8.  The orchestrator cannot run on a roadmap the generator has
    updated: after a completed [update_roadmap] that stored a symbol
    record in a roadmap without symbols, every cycle raises TypeError
    right after its banner. *)
Theorem orchestrator_rejects_generator_roadmap E W (n : nat)
    (g : Generator.generated) (s s1 : state) (v : value) (rest : list value) :
  Generator.update_roadmap g s = (Ok (), s1) ->
  roadmap s !! "focus_symbols" = Some (VList []) ->
  Generator.new_symbols g = v :: rest -> as_str v = None ->
  ciclo_symbolic E W n s1
  = (Raise TypeError, State (roadmap s1) (disk s1) (log s1 ++ [Banner n])).
Proof.
  intros Hu Hs Hg Hv.
  destruct (update_roadmap_Ok _ _ _ Hu)
    as (syms & qs & meta & Hs' & _ & _ & _ & Hs1 & _).
  rewrite Hs in Hs'. injection Hs' as <-. rewrite Hg in Hs1. cbn in Hs1.
  unfold ciclo_symbolic. rewrite bind_run. cbn [emit].
  rewrite bind_run, get_strings_run. cbn [roadmap]. rewrite Hs1.
  by rewrite (as_strings_lookup (v :: rest) 0 v eq_refl Hv).
Qed.

Lemma orchestrator_rejects_generator_roadmap_witness :
  ciclo_symbolic reversed_order W_settled 3
    (generator_run "2026-01-01T00:00:00" None generated_once).2
  = (Raise TypeError,
     State (roadmap (generator_run "2026-01-01T00:00:00" None generated_once).2)
           (disk (generator_run "2026-01-01T00:00:00" None generated_once).2)
           (log (generator_run "2026-01-01T00:00:00" None generated_once).2
              ++ [Banner 3])).
Proof.
  refine (orchestrator_rejects_generator_roadmap reversed_order W_settled 3
            generated_once (Generator.boot "2026-01-01T00:00:00" None)
            (generator_run "2026-01-01T00:00:00" None generated_once).2
            (VDict {[ "name" := VStr "Q_plasma" ]}) [] _ _ _ _);
    [vm_compute; reflexivity | vm_compute; reflexivity
    | reflexivity | reflexivity].
Defined.

(** ** The generator's update *)

Lemma update_roadmap_counters_witness :
  exists c meta syms qs,
    disk (generator_run "2026-01-01T00:00:00" None generated_once).2 = Some c /\
    c !! "metadata" = Some (VDict meta) /\
    c !! "focus_symbols" = Some (VList syms) /\
    c !! "open_questions" = Some (VList qs) /\
    meta !! "total_symbols" = Some (VInt (Z.of_nat (length syms))) /\
    meta !! "total_questions" = Some (VInt (Z.of_nat (length qs))).
Proof.
  apply (update_roadmap_counters generated_once
           (Generator.boot "2026-01-01T00:00:00" None)).
  vm_compute. reflexivity.
Defined.

(** X10.  A completed [update_roadmap] only adds to the two lists: the
    symbols and the questions it found are still there, in their order,
    followed by the new ones; and what it saved is the roadmap it now
    holds. *)
Theorem update_roadmap_accumulates (g : Generator.generated) (s s' : state) :
  Generator.update_roadmap g s = (Ok (), s') ->
  exists syms qs,
    roadmap s !! "focus_symbols" = Some (VList syms) /\
    roadmap s !! "open_questions" = Some (VList qs) /\
    roadmap s' !! "focus_symbols"
      = Some (VList (syms ++ Generator.new_symbols g)) /\
    roadmap s' !! "open_questions"
      = Some (VList (qs ++ Generator.new_questions g)) /\
    disk s' = Some (roadmap s').
Proof.
  intros H. destruct (update_roadmap_Ok _ _ _ H)
    as (syms & qs & meta & Hs & Hq & _ & _ & Hs' & Hq' & _ & Hd & _).
  by exists syms, qs.
Qed.

Lemma update_roadmap_accumulates_witness :
  exists syms qs,
    roadmap (Generator.boot "2026-01-01T00:00:00" (Some scenario_roadmap))
      !! "focus_symbols" = Some (VList syms) /\
    roadmap (Generator.boot "2026-01-01T00:00:00" (Some scenario_roadmap))
      !! "open_questions" = Some (VList qs) /\
    roadmap (generator_run "2026-01-01T00:00:00" (Some scenario_roadmap)
               generated_once).2 !! "focus_symbols"
      = Some (VList (syms ++ Generator.new_symbols generated_once)) /\
    roadmap (generator_run "2026-01-01T00:00:00" (Some scenario_roadmap)
               generated_once).2 !! "open_questions"
      = Some (VList (qs ++ Generator.new_questions generated_once)) /\
    disk (generator_run "2026-01-01T00:00:00" (Some scenario_roadmap)
            generated_once).2
      = Some (roadmap (generator_run "2026-01-01T00:00:00"
                         (Some scenario_roadmap) generated_once).2).
Proof.
  apply (update_roadmap_accumulates generated_once
           (Generator.boot "2026-01-01T00:00:00" (Some scenario_roadmap))).
  vm_compute. reflexivity.
Defined.

Lemma fails_clean_bind {A B : Type} (m : M A) (f : A -> M B) :
  no_write m -> (forall a, fails_clean (f a)) -> fails_clean (m ≫= f).
Proof.
  intros Hm Hf s e s'. rewrite bind_run.
  destruct (m s) as [[a|e1] s1] eqn:E1.
  - intros H2. destruct (Hm _ _ _ E1) as [<- <-]. exact (Hf _ _ _ _ H2).
  - intros [= <- <-]. exact (Hm _ _ _ E1).
Qed.

Lemma no_write_extend (key : string) (items : list value) :
  no_write (Generator.extend key items).
Proof.
  intros s r s'. rewrite extend_run.
  by destruct (roadmap s !! key) as [[]|]; intros [= <- <-].
Qed.

Lemma no_write_set_metadata (key : string) (v : value) :
  no_write (Generator.set_metadata key v).
Proof.
  intros s r s'. rewrite set_metadata_run.
  by destruct (roadmap s !! "metadata") as [[]|]; intros [= <- <-].
Qed.

Lemma no_write_len_of (key : string) : no_write (Generator.len_of key).
Proof. intros s r s'. rewrite len_of_run. by intros [= <- <-]. Qed.

Lemma no_write_setitem (key : string) (v : value) : no_write (setitem key v).
Proof. by intros s r s' [= <- <-]. Qed.

Lemma no_write_ret {A : Type} (a : A) : no_write (mret a : M A).
Proof. by intros s r s' [= <- <-]. Qed.

(** X11.  An [update_roadmap] that raises has written nothing: the file
    is as it was, whatever was already changed in memory. *)
Theorem update_roadmap_failure_writes_nothing (g : Generator.generated)
    (s s' : state) (e : exn) :
  Generator.update_roadmap g s = (Raise e, s') ->
  disk s' = disk s /\ log s' = log s.
Proof.
  revert s e s'. change (fails_clean (Generator.update_roadmap g)).
  unfold Generator.update_roadmap.
  do 3 (apply fails_clean_bind; [apply no_write_extend | intros ?]).
  apply fails_clean_bind.
  { destruct (truthy _); [apply no_write_extend | apply no_write_ret]. }
  intros ?.
  apply fails_clean_bind; [apply no_write_set_metadata | intros ?].
  apply fails_clean_bind; [apply no_write_len_of | intros ?].
  apply fails_clean_bind; [apply no_write_set_metadata | intros ?].
  apply fails_clean_bind; [apply no_write_len_of | intros ?].
  apply fails_clean_bind; [apply no_write_set_metadata | intros ?].
  apply fails_clean_bind; [apply no_write_setitem | intros ?].
  intros s e s'. discriminate.
Qed.

Lemma update_roadmap_failure_writes_nothing_witness :
  disk (generator_run "2026-01-01T00:00:00" (Some Orchestrator.default_roadmap)
          generated_once).2
    = disk (Generator.boot "2026-01-01T00:00:00"
              (Some Orchestrator.default_roadmap)) /\
  log (generator_run "2026-01-01T00:00:00" (Some Orchestrator.default_roadmap)
         generated_once).2
    = log (Generator.boot "2026-01-01T00:00:00"
             (Some Orchestrator.default_roadmap)).
Proof.
  apply (update_roadmap_failure_writes_nothing generated_once
           (Generator.boot "2026-01-01T00:00:00"
              (Some Orchestrator.default_roadmap))
           _ (KeyError "web_sources")).
  vm_compute. reflexivity.
Defined.

(** ** More on cycles and runs *)

(** X12.  A run changes no entry of the roadmap but focus_symbols and
    open_questions: whatever else the file held (metadata, peer
    reviews, web sources, recommendations) is in the roadmap at the end
    as it was at the start. *)
Theorem run_touches_two_entries E W (s : state) (key : string) :
  key <> "focus_symbols" -> key <> "open_questions" ->
  roadmap (main E W s).2 !! key = roadmap s !! key.
Proof.
  intros H1 H2.
  exact (keeps_cicli E W (seq 0 CYCLES) key H1 H2 s _ _ (surjective_pairing _)).
Qed.

Lemma run_touches_two_entries_witness :
  roadmap (main insertion_order W_settled (boot (Some initial_roadmap))).2
    !! "web_sources"
  = roadmap (boot (Some initial_roadmap)) !! "web_sources".
Proof.
  by apply (run_touches_two_entries insertion_order W_settled
              (boot (Some initial_roadmap)) "web_sources").
Defined.

(** X13.  After a completed cycle focus_symbols hold no string twice,
    even if they did before, and hold exactly the symbols of before
    and the concepts extracted from the two answers of the service. *)
Theorem cycle_merges_symbols E W (n : nat) (s s' : state) :
  ciclo_symbolic E W n s = (Ok (), s') ->
  exists old new p1 risposta evs p2 review,
    strings_at "focus_symbols" (roadmap s) = Some old /\
    strings_at "focus_symbols" (roadmap s') = Some new /\
    log s' = log s ++ Banner n :: Post p1 :: evs ++ [Post p2] /\
    response_of (ollama W (log s ++ [Banner n]) p1) = Ok (VStr risposta) /\
    response_of (ollama W (log s ++ Banner n :: Post p1 :: evs) p2)
      = Ok (VStr review) /\
    NoDup new /\
    forall x, x ∈ new <->
      x ∈ old \/ x ∈ estrai_simboli_concetti E risposta
      \/ x ∈ estrai_simboli_concetti E review.
Proof.
  intros H.
  destruct (ciclo_symbolic_Ok _ _ _ _ _ H)
    as (symbols & questions & risposta & fonti & evs & review
        & Hs & _ & R1 & _ & R2 & ->).
  exists symbols,
    (E (symbols ++ estrai_simboli_concetti E risposta
          ++ estrai_simboli_concetti E review)),
    (generate_prompt symbols questions), risposta, evs,
    (peer_prompt risposta fonti), review.
  split; [done|]. split.
  { cbn [roadmap]. rewrite strings_at_insert_ne by done. apply strings_at_insert. }
  split; [done|]. split; [done|]. split; [done|].
  split; [apply enum_NoDup|].
  intros x. by rewrite enum_elem, !elem_of_app.
Qed.

Lemma cycle_merges_symbols_witness :
  exists old new p1 risposta evs p2 review,
    strings_at "focus_symbols" (roadmap (boot (Some scenario_roadmap)))
      = Some old /\
    strings_at "focus_symbols"
      (roadmap (ciclo_symbolic insertion_order W_scenario 0
                  (boot (Some scenario_roadmap))).2) = Some new /\
    log (ciclo_symbolic insertion_order W_scenario 0
           (boot (Some scenario_roadmap))).2
      = log (boot (Some scenario_roadmap))
          ++ Banner 0 :: Post p1 :: evs ++ [Post p2] /\
    response_of (ollama W_scenario
                   (log (boot (Some scenario_roadmap)) ++ [Banner 0]) p1)
      = Ok (VStr risposta) /\
    response_of (ollama W_scenario
                   (log (boot (Some scenario_roadmap))
                      ++ Banner 0 :: Post p1 :: evs) p2)
      = Ok (VStr review) /\
    NoDup new /\
    forall x, x ∈ new <->
      x ∈ old \/ x ∈ estrai_simboli_concetti insertion_order risposta
      \/ x ∈ estrai_simboli_concetti insertion_order review.
Proof.
  apply (cycle_merges_symbols insertion_order W_scenario 0
           (boot (Some scenario_roadmap))).
  vm_compute. reflexivity.
Defined.

(** ** Failures and the two programs together *)

(** X14.  When the first request of a cycle gets no text for an answer
    (the service is unreachable, its body is no JSON, has no "response"
    or one that is no string), the cycle raises at once: the banner and
    that one request are all it has done, no page is fetched, no review
    is asked for, and the roadmap and the file are as they were. *)
Theorem first_failure_fetches_nothing E W (n : nat) (s : state)
    (symbols questions : list string) :
  strings_at "focus_symbols" (roadmap s) = Some symbols ->
  strings_at "open_questions" (roadmap s) = Some questions ->
  (forall t,
     response_of (ollama W (log s ++ [Banner n])
                    (generate_prompt symbols questions)) <> Ok (VStr t)) ->
  exists e,
    ciclo_symbolic E W n s =
    (Raise e,
     State (roadmap s) (disk s)
       (log s ++ [Banner n; Post (generate_prompt symbols questions)])).
Proof.
  intros Hs Hq HW. unfold ciclo_symbolic. rewrite bind_run. cbn [emit].
  rewrite bind_run. erewrite get_strings_Some by exact Hs.
  rewrite bind_run. erewrite get_strings_Some by exact Hq.
  rewrite bind_run, ask_ollama_run. cbn [roadmap disk log].
  rewrite <-(assoc_L (++)). cbn [app].
  destruct (response_of _) as [v|e] eqn:R; [|by exists e].
  rewrite bind_run, expect_run.
  destruct v as [| | |t| |]; cbn [as_str]; try by eexists.
  by destruct (HW t).
Qed.

Lemma first_failure_fetches_nothing_witness :
  exists e,
    ciclo_symbolic insertion_order W_malformed 0
      (boot (Some scenario_roadmap)) =
    (Raise e,
     State (roadmap (boot (Some scenario_roadmap)))
       (disk (boot (Some scenario_roadmap)))
       (log (boot (Some scenario_roadmap))
          ++ [Banner 0;
              Post (generate_prompt ["Q_plasma"; "Lawson_criterion"]
                      ["How does Q_plasma scale?"])])).
Proof.
  apply (first_failure_fetches_nothing insertion_order W_malformed 0
           (boot (Some scenario_roadmap))).
  - vm_compute. reflexivity.
  - vm_compute. reflexivity.
  - intros t. vm_compute. discriminate.
Defined.

Lemma questions_kept_bind {A B : Type} (m : M A) (f : A -> M B) :
  questions_kept m -> (forall a, questions_kept (f a)) ->
  questions_kept (m ≫= f).
Proof.
  intros Hm Hf s r s'. rewrite bind_run.
  destruct (m s) as [[a|e] s1] eqn:E1.
  - intros H2 H. exact (Hf _ _ _ _ H2 (Hm _ _ _ E1 H)).
  - intros [= <- <-]. exact (Hm _ _ _ E1).
Qed.

Lemma keeps_questions_kept {A : Type} (m : M A) :
  keeps "open_questions" m -> questions_kept m.
Proof. intros H s r s' Hm. unfold strings_at. by rewrite (H _ _ _ Hm). Qed.

Lemma questions_kept_ciclo_symbolic E W (n : nat) :
  questions_kept (ciclo_symbolic E W n).
Proof.
  intros s [[]|e] s' H Hq.
  - destruct (ciclo_symbolic_Ok _ _ _ _ _ H)
      as (? & ? & ? & ? & ? & ? & _ & _ & _ & _ & _ & ->).
    cbn [roadmap]. rewrite strings_at_insert. by eexists.
  - by destruct (atomic_ciclo_symbolic _ _ _ _ _ _ H) as [-> _].
Qed.

Lemma questions_kept_cicli E W (numeri : list nat) :
  questions_kept (cicli E W numeri).
Proof.
  induction numeri as [|n rest IH]; cbn [cicli].
  - apply keeps_questions_kept, frame_keeps, frame_ret.
  - apply questions_kept_bind; [apply questions_kept_ciclo_symbolic | intros ?].
    apply questions_kept_bind;
      [apply keeps_questions_kept, keeps_dump_roadmap | intros ?].
    apply questions_kept_bind;
      [apply keeps_questions_kept, frame_keeps, frame_getitem | intros v].
    destruct (truthy v); [|apply keeps_questions_kept, frame_keeps, frame_ret].
    apply questions_kept_bind;
      [apply keeps_questions_kept, frame_keeps, frame_emit | by intros ?].
Qed.

Lemma strings_at_list (key : string) (r : gmap string value) :
  is_Some (strings_at key r) -> exists l, r !! key = Some (VList l).
Proof.
  unfold strings_at. intros [l H].
  destruct (r !! key) as [[| | | |vs|]|]; try done. by exists vs.
Qed.

(** X15.  The generator cannot update a roadmap file the orchestrator
    has created: started without a file, the orchestrator saves a
    roadmap without web_sources, and update_roadmap on that file raises
    KeyError for web_sources, after it has extended the two lists in
    memory and before it writes anything. *)
Theorem generator_rejects_orchestrator_file E W (g : Generator.generated)
    (now : string) (c : gmap string value) :
  disk (main E W (boot None)).2 = Some c ->
  exists s2,
    Generator.update_roadmap g (Generator.boot now (Some c))
      = (Raise (KeyError "web_sources"), s2) /\
    disk s2 = Some c.
Proof.
  intros Hd. unfold main in Hd.
  destruct (cicli E W (seq 0 CYCLES) (boot None)) as [r s1] eqn:Hrun.
  cbn [snd] in Hd.
  destruct (persists_cicli E W _ _ _ _ Hrun) as [[_ Hsame]|Hsaved].
  { rewrite Hsame in Hd. discriminate. }
  assert (Hc : roadmap s1 = c) by congruence.
  assert (Hweb : c !! "web_sources" = None).
  { rewrite <-Hc.
    by rewrite (keeps_cicli E W _ "web_sources" ltac:(done) ltac:(done)
                  _ _ _ Hrun). }
  destruct (grows_cicli E W _ _ _ _ [] Hrun ltac:(reflexivity))
    as (new & Hnew & _).
  destruct (strings_at_list "focus_symbols" c) as [syms Hsyms].
  { rewrite <-Hc. by eexists. }
  destruct (strings_at_list "open_questions" c) as [qs Hqs].
  { rewrite <-Hc. apply (questions_kept_cicli E W _ _ _ _ Hrun). by eexists. }
  change (Generator.boot now (Some c)) with (State c (Some c) []).
  unfold Generator.update_roadmap.
  rewrite bind_run, extend_run. cbn [roadmap disk log]. rewrite Hsyms.
  rewrite bind_run, extend_run. cbn [roadmap disk log].
  rewrite lookup_insert_ne by done. rewrite Hqs.
  rewrite bind_run, extend_run. cbn [roadmap disk log].
  rewrite !lookup_insert_ne by done. rewrite Hweb.
  eexists. split; reflexivity.
Qed.

Lemma generator_rejects_orchestrator_file_witness :
  exists s2,
    Generator.update_roadmap generated_once
      (Generator.boot "2026-01-02T00:00:00"
         (Some (roadmap (main insertion_order W_settled (boot None)).2)))
      = (Raise (KeyError "web_sources"), s2) /\
    disk s2 = Some (roadmap (main insertion_order W_settled (boot None)).2).
Proof.
  apply (generator_rejects_orchestrator_file insertion_order W_settled).
  vm_compute. reflexivity.
Defined.

(** ** What the extractors return *)

Lemma sapp_cons (c : ascii) (s t : string) :
  String c s +:+ t = String c (s +:+ t).
Proof. reflexivity. Qed.

Lemma sapp_nil_r (s : string) : s +:+ "" = s.
Proof. induction s as [|c s IH]; [done|]. by rewrite sapp_cons, IH. Qed.

Lemma sapp_assoc (a b c : string) : (a +:+ b) +:+ c = a +:+ b +:+ c.
Proof. induction a as [|x a IH]; [done|]. by rewrite !sapp_cons, IH. Qed.

Lemma slength_app (a b : string) :
  String.length (a +:+ b) = String.length a + String.length b.
Proof.
  induction a as [|x a IH]; [done|]. rewrite sapp_cons. cbn. by rewrite IH.
Qed.

Lemma substring_sapp (pre s : string) :
  substring 0 (String.length (pre +:+ s) - String.length s) (pre +:+ s) = pre.
Proof.
  rewrite slength_app.
  replace (String.length pre + String.length s - String.length s)
    with (String.length pre) by lia.
  induction pre as [|x pre IH].
  - by destruct s.
  - rewrite sapp_cons. cbn. by rewrite IH.
Qed.

Lemma occurs_in_empty (s : string) : occurs_in "" s.
Proof. by exists "", s. Qed.

Lemma occurs_in_tail (x s pre : string) :
  occurs_in x s -> occurs_in x (pre +:+ s).
Proof. intros (a & b & ->). exists (pre +:+ a), b. by rewrite sapp_assoc. Qed.

Lemma occurs_in_head (x s post : string) :
  occurs_in x s -> occurs_in x (s +:+ post).
Proof. intros (a & b & ->). exists a, (b +:+ post). by rewrite !sapp_assoc. Qed.

Lemma occurs_in_trans (x y z : string) :
  occurs_in x y -> occurs_in y z -> occurs_in x z.
Proof. intros Hxy (a & b & ->). by apply occurs_in_tail, occurs_in_head. Qed.

Section Tails.

Variable icase : bool.
Context {X : Type}.

Lemma lit_tail (l : string) prev s (k : option ascii -> string -> option X) x :
  Re.lit icase l prev s k = Some x ->
  exists p' s' pre, k p' s' = Some x /\ s = pre +:+ s'.
Proof.
  revert prev s. induction l as [|c l IH]; intros prev s; cbn.
  - intros H. by exists prev, s, "".
  - destruct s as [|c' s]; [done|]. destruct (Re.char_ok icase c c'); [|done].
    intros H. destruct (IH _ _ H) as (p' & s' & pre & Hk & ->).
    by exists p', s', (String c' pre).
Qed.

Lemma rep_greedy_tail a min max prev s
    (k : option ascii -> string -> option X) x :
  Re.rep_greedy icase a min max prev s k = Some x ->
  exists p' s' pre, k p' s' = Some x /\ s = pre +:+ s'.
Proof.
  revert min max prev. induction s as [|c s IH]; intros min max prev; cbn.
  - destruct min; [|done]. intros H. by exists prev, EmptyString, "".
  - destruct (Re.atom_ok icase a c && Re.may_repeat max).
    + destruct (Re.rep_greedy icase a (pred min) (pred <$> max) (Some c) s k)
        as [y|] eqn:Hr.
      * intros [= <-]. destruct (IH _ _ _ Hr) as (p' & s' & pre & Hk & ->).
        by exists p', s', (String c pre).
      * destruct min; [|done]. intros H. by exists prev, (String c s), "".
    + destruct min; [|done]. intros H. by exists prev, (String c s), "".
Qed.

Lemma rep_lazy_tail a min max prev s
    (k : option ascii -> string -> option X) x :
  Re.rep_lazy icase a min max prev s k = Some x ->
  exists p' s' pre, k p' s' = Some x /\ s = pre +:+ s'.
Proof.
  revert min max prev. induction s as [|c s IH]; intros min max prev.
  - destruct min; cbn; [|done]. destruct (k prev EmptyString) eqn:Hk; [|done].
    intros [= <-]. by exists prev, EmptyString, "".
  - destruct min; cbn.
    + destruct (k prev (String c s)) eqn:Hk.
      * intros [= <-]. by exists prev, (String c s), "".
      * destruct (Re.atom_ok icase a c && Re.may_repeat max); [|done].
        intros H. destruct (IH _ _ _ H) as (p' & s' & pre & Hk' & ->).
        by exists p', s', (String c pre).
    + destruct (Re.atom_ok icase a c && Re.may_repeat max); [|done].
      intros H. destruct (IH _ _ _ H) as (p' & s' & pre & Hk' & ->).
      by exists p', s', (String c pre).
Qed.

(** A match of [r] hands to what follows a tail of its input, and for
    the capture either the one it got or a piece of its input. *)
Lemma rmatch_tail (r : Re.regex) prev s cap
    (k : option ascii -> string -> option string -> option X) x :
  Re.rmatch icase r prev s cap k = Some x ->
  exists p' s' cap' pre, k p' s' cap' = Some x /\ s = pre +:+ s' /\
    (cap' = cap \/ exists c, cap' = Some c /\ occurs_in c s).
Proof.
  revert prev s cap k.
  induction r as [a|l|a min max greedy|r1 IH1 r2 IH2|r1 IH1 r2 IH2|r1 IH1| |];
    intros prev s cap k; cbn [Re.rmatch].
  - destruct s as [|c s]; [done|]. destruct (Re.atom_ok icase a c); [|done].
    intros H. exists (Some c), s, cap, (String c ""). auto.
  - intros H. destruct (lit_tail _ _ _ _ _ H) as (p' & s' & pre & Hk & ->).
    exists p', s', cap, pre. auto.
  - intros H.
    assert (Hi : exists p' s' pre, k p' s' cap = Some x /\ s = pre +:+ s').
    { destruct greedy;
        [by apply rep_greedy_tail in H|by apply rep_lazy_tail in H]. }
    destruct Hi as (p' & s' & pre & Hk & ->).
    exists p', s', cap, pre. auto.
  - intros H. destruct (IH1 _ _ _ _ H) as (p1 & s1 & c1 & pre1 & H1 & -> & G1).
    destruct (IH2 _ _ _ _ H1) as (p2 & s2 & c2 & pre2 & H2 & -> & G2).
    exists p2, s2, c2, (pre1 +:+ pre2). split; [done|].
    split; [by rewrite sapp_assoc|].
    destruct G2 as [->|(c & -> & Hc)]; [exact G1|].
    right. exists c. split; [done|]. by apply occurs_in_tail.
  - destruct (Re.rmatch icase r1 prev s cap k) as [y|] eqn:Hr.
    + intros [= <-]. exact (IH1 _ _ _ _ Hr).
    + intros H. exact (IH2 _ _ _ _ H).
  - intros H. destruct (IH1 _ _ _ _ H) as (p1 & s1 & c1 & pre & H1 & -> & _).
    cbn beta in H1. rewrite substring_sapp in H1.
    exists p1, s1, (Some pre), pre. split; [exact H1|]. split; [done|].
    right. exists pre. split; [done|]. by exists "", s1.
  - destruct (xorb _ _); [|done]. intros H. exists prev, s, cap, "". auto.
  - intros H. exists prev, s, cap, "".
    assert (k prev s cap = Some x).
    { destruct s as [|c [|??]]; try done;
        by destruct c as [[] [] [] [] [] [] [] []]. }
    auto.
Qed.

End Tails.

Lemma match_here_occurs (icase : bool) (r : Re.regex) prev s cap rest :
  Re.match_here icase r prev s = Some (cap, rest) ->
  occurs_in (Re.group1 cap) s.
Proof.
  unfold Re.match_here. intros H.
  destruct (rmatch_tail _ _ _ _ _ _ _ H)
    as (p' & s' & cap' & pre & [= -> ->] & _ & [->|(c & -> & Hc)]).
  - apply occurs_in_empty.
  - exact Hc.
Qed.

Lemma scan_occurs (icase : bool) (r : Re.regex) (s : string) :
  forall prev skip,
    Forall (fun x => occurs_in x s) (Re.scan icase r prev s skip).
Proof.
  induction s as [|c s IH]; intros prev [|n]; cbn [Re.scan].
  - destruct (Re.match_here icase r prev "") as [[cap rest]|] eqn:H; [|done].
    constructor; [|done]. by eapply match_here_occurs.
  - done.
  - assert (L : forall p k,
               Forall (fun x => occurs_in x (String c s))
                 (Re.scan icase r p s k)).
    { intros p k. eapply Forall_impl; [apply IH|]. intros x Hx.
      exact (occurs_in_tail x s (String c "") Hx). }
    destruct (Re.match_here icase r prev (String c s)) as [[cap rest]|] eqn:H;
      [|apply L].
    constructor; [by eapply match_here_occurs | apply L].
  - eapply Forall_impl; [apply IH|]. intros x Hx.
    exact (occurs_in_tail x s (String c "") Hx).
Qed.

Lemma findall_occurs (icase : bool) (r : Re.regex) (s x : string) :
  x ∈ Re.findall icase r s -> occurs_in x s.
Proof.
  unfold Re.findall. revert x. apply Forall_forall, scan_occurs.
Qed.

Lemma search_occurs (icase : bool) (r : Re.regex) (s : string) cap :
  Re.search icase r s = Some cap -> occurs_in (Re.group1 cap) s.
Proof.
  unfold Re.search. generalize (None : option ascii).
  induction s as [|c s IH]; intros prev; cbn [Re.search_from].
  - destruct (Re.match_here icase r prev "") as [[cap' rest]|] eqn:H; [|done].
    intros [= <-]. by eapply match_here_occurs.
  - destruct (Re.match_here icase r prev (String c s)) as [[cap' rest]|] eqn:H.
    + intros [= <-]. by eapply match_here_occurs.
    + intros H'. apply (occurs_in_tail _ s (String c "")). by eapply IH.
Qed.

Lemma lstrip_tail (s : string) : exists pre, s = pre +:+ Str.lstrip s.
Proof.
  induction s as [|c s [pre IH]]; cbn [Str.lstrip].
  - by exists "".
  - destruct (Chr.is_space c); [|by exists ""].
    exists (String c pre). rewrite sapp_cons. by rewrite <-IH.
Qed.

Lemma srev_app_sapp (s t : string) : String.rev_app s t = String.rev s +:+ t.
Proof.
  unfold String.rev. revert t.
  induction s as [|c s IH]; intros t; cbn [String.rev_app]; [done|].
  rewrite (IH (String c t)), (IH (String c "")). by rewrite sapp_assoc.
Qed.

Lemma srev_cons (c : ascii) (s : string) :
  String.rev (String c s) = String.rev s +:+ String c "".
Proof. unfold String.rev at 1. cbn [String.rev_app]. apply srev_app_sapp. Qed.

Lemma srev_sapp (a b : string) :
  String.rev (a +:+ b) = String.rev b +:+ String.rev a.
Proof.
  induction a as [|c a IH].
  - change (String.rev b = String.rev b +:+ ""). by rewrite sapp_nil_r.
  - rewrite sapp_cons, !srev_cons, IH. by rewrite sapp_assoc.
Qed.

Lemma srev_srev (s : string) : String.rev (String.rev s) = s.
Proof.
  induction s as [|c s IH]; [done|]. by rewrite srev_cons, srev_sapp, IH.
Qed.

(** What [strip] returns is the text between the white space it drops. *)
Lemma strip_split (s : string) :
  exists pre post, s = pre +:+ Str.strip s +:+ post /\
    Str.lstrip s = Str.strip s +:+ post.
Proof.
  unfold Str.strip.
  destruct (lstrip_tail s) as [p1 H1].
  destruct (lstrip_tail (String.rev (Str.lstrip s))) as [p2 H2].
  apply (f_equal String.rev) in H2. rewrite srev_srev, srev_sapp in H2.
  exists p1, (String.rev p2). split; [|exact H2]. by rewrite <-H2.
Qed.

Lemma strip_occurs (s : string) : occurs_in (Str.strip s) s.
Proof. destruct (strip_split s) as (pre & post & H & _). by exists pre, post. Qed.

Lemma lstrip_head_ok (s : string) : head_ok (Str.lstrip s) = true.
Proof.
  induction s as [|c s IH]; [done|]. cbn [Str.lstrip].
  destruct (Chr.is_space c) eqn:Hc; [done|]. cbn. by rewrite Hc.
Qed.

Lemma lstrip_fixed (s : string) : head_ok s = true -> Str.lstrip s = s.
Proof.
  destruct s as [|c s]; [done|]. cbn. by destruct (Chr.is_space c).
Qed.

Lemma head_ok_sapp (s t : string) :
  head_ok (s +:+ t) = true -> head_ok s = true.
Proof. by destruct s. Qed.

(** [strip] leaves alone what it has stripped. *)
Lemma strip_strip (s : string) : Str.strip (Str.strip s) = Str.strip s.
Proof.
  destruct (strip_split s) as (pre & post & _ & H).
  assert (Hh : head_ok (Str.strip s) = true).
  { apply (head_ok_sapp _ post). rewrite <-H. apply lstrip_head_ok. }
  unfold Str.strip in *.
  set (u := Str.lstrip (String.rev (Str.lstrip s))) in *.
  rewrite (lstrip_fixed _ Hh), srev_srev.
  by rewrite (lstrip_fixed u (lstrip_head_ok _)).
Qed.

(** X17.  The extractors never invent text: every symbol and every
    question they return occurs in the text they were given, letter for
    letter (also for the pattern matched without regard to case), and
    carries no white space at either end. *)
Theorem extractors_quote_the_text E (testo : string) :
  Forall (fun x => occurs_in x testo /\ Str.strip x = x)
    (estrai_simboli_concetti E testo) /\
  Forall (fun d => occurs_in d testo /\ Str.strip d = d)
    (estrai_domande_aperte E testo).
Proof.
  split; apply Forall_forall; intros x.
  - unfold estrai_simboli_concetti.
    rewrite enum_elem, list_elem_of_In, in_map_iff.
    intros (y & <- & Hy). apply list_elem_of_In in Hy.
    apply list_elem_of_filter in Hy as [_ Hy]. apply enum_elem in Hy.
    split; [|apply strip_strip].
    apply (occurs_in_trans _ y); [apply strip_occurs|].
    rewrite !elem_of_app in Hy.
    destruct Hy as [Hy|[Hy|Hy]]; by apply findall_occurs in Hy.
  - unfold estrai_domande_aperte, domande_trovate.
    rewrite list_elem_of_In, in_map_iff.
    intros (y & <- & Hy). apply list_elem_of_In in Hy.
    apply list_elem_of_filter in Hy as [_ Hy]. apply enum_elem in Hy.
    split; [|apply strip_strip].
    apply (occurs_in_trans _ y); [apply strip_occurs|].
    rewrite elem_of_app in Hy. destruct Hy as [Hy|Hy].
    + destruct (Re.search true re_block testo) as [blocco|] eqn:Hb;
        [|by apply elem_of_nil in Hy].
      apply (occurs_in_trans _ (Re.group1 blocco)); [|exact (search_occurs _ _ _ _ Hb)].
      by apply findall_occurs in Hy.
    + by apply findall_occurs in Hy.
Qed.

Lemma map_NoDup_inj {A B : Type} (f : A -> B) (l : list A) (a b : A) :
  NoDup (map f l) -> a ∈ l -> b ∈ l -> f a = f b -> a = b.
Proof.
  induction l as [|y l IH]; cbn [map]; [by intros _ ?%elem_of_nil|].
  rewrite NoDup_cons, list_elem_of_In, in_map_iff.
  intros [Hy Hl] [->|Ha]%elem_of_cons [->|Hb]%elem_of_cons Hf.
  - done.
  - destruct Hy. exists b. split; [done|]. by apply list_elem_of_In.
  - destruct Hy. exists a. split; [done|]. by apply list_elem_of_In.
  - by apply IH.
Qed.

(** X18.  The question extractor can return a question twice: duplicates
    are dropped before the matches are stripped, so two matches that
    differ only in the white space around them (a numbered item of the
    block with a blank after it, and the same sentence found by the
    question-mark pattern) both come out, as the same string. *)
Theorem questions_may_repeat E (review a b : string) :
  a ∈ domande_trovate review -> b ∈ domande_trovate review ->
  a <> b -> Str.strip a = Str.strip b ->
  10 < String.length (Str.strip a) ->
  ~ NoDup (estrai_domande_aperte E review).
Proof.
  intros Ha Hb Hne Hs Hlen Hnd. apply Hne.
  unfold estrai_domande_aperte in Hnd.
  apply (map_NoDup_inj Str.strip _ a b Hnd); [| |exact Hs].
  - apply list_elem_of_filter. split; [done|]. by apply enum_elem.
  - apply list_elem_of_filter. split; [by rewrite <-Hs|]. by apply enum_elem.
Qed.

Lemma questions_may_repeat_witness :
  ~ NoDup (estrai_domande_aperte insertion_order
             ("Questions:" +:+ nl +:+ "1. What limits the product? ")).
Proof.
  apply (questions_may_repeat insertion_order _
           "What limits the product? " "What limits the product?").
  - vm_compute. apply list_elem_of_here.
  - vm_compute. apply list_elem_of_further, list_elem_of_here.
  - discriminate.
  - vm_compute. reflexivity.
  - vm_compute. lia.
Defined.

(** ** The prompt builder *)

Lemma join_cons (sep x y : string) (l : list string) :
  Str.join sep (x :: y :: l) = x +:+ sep +:+ Str.join sep (y :: l).
Proof. reflexivity. Qed.

Lemma join_occurs (sep : string) (l : list string) (i : nat) (x : string) :
  l !! i = Some x -> occurs_in x (Str.join sep l).
Proof.
  revert i. induction l as [|y l IH]; intros i; [done|].
  destruct l as [|z l].
  - destruct i as [|i]; [|done]. intros [= ->]. exists "", "".
    by rewrite sapp_nil_r.
  - rewrite join_cons. destruct i as [|i].
    + intros [= ->]. by exists "", (sep +:+ Str.join sep (z :: l)).
    + intros H. apply (occurs_in_tail _ _ y), (occurs_in_tail _ _ sep).
      exact (IH i H).
Qed.

Lemma join_neighbours (sep : string) (l : list string) (i : nat)
    (a b : string) :
  l !! i = Some a -> l !! S i = Some b ->
  occurs_in (a +:+ sep +:+ b) (Str.join sep l).
Proof.
  revert i. induction l as [|y l IH]; intros i; [done|].
  destruct l as [|z l]; [by destruct i|].
  rewrite join_cons. destruct i as [|i].
  - intros [= ->] [= ->]. destruct l as [|w l].
    + exists "", "". by rewrite sapp_nil_r.
    + rewrite join_cons. exists "", (sep +:+ Str.join sep (w :: l)).
      by rewrite !sapp_assoc.
  - intros Ha Hb. apply (occurs_in_tail _ _ y), (occurs_in_tail _ _ sep).
    exact (IH i Ha Hb).
Qed.

Lemma join_length (sep : string) (l : list string) :
  String.length (Str.join sep l)
  = sum_list_with String.length l + String.length sep * pred (length l).
Proof.
  induction l as [|y l IH]; [cbn; lia|]. destruct l as [|z l].
  - cbn. lia.
  - rewrite join_cons, !slength_app, IH. cbn [sum_list_with length pred]. lia.
Qed.

Lemma join_lists (n : nat) (symbols : list string) :
  lists n symbols (Str.join ", " (take n symbols)).
Proof.
  split; [|split].
  - intros i sym Hi Hs. apply (join_occurs _ _ i).
    by rewrite lookup_take_lt.
  - intros i a b Hi Ha Hb. apply (join_neighbours _ _ i).
    + rewrite lookup_take_lt by lia. done.
    + by rewrite lookup_take_lt.
  - rewrite join_length. done.
Qed.

(** Claim C9.  The generation prompt is a function of the first question
    and the first 8 symbols only.  It is the fixed request around a
    question and a list: the list names the first 8 symbols, in order
    and separated by ", ", and nothing else; with a question at hand
    the question is the first one, and without any it is the request to
    elaborate on one of the first 5 symbols, named in the same way. *)
Theorem generate_prompt_spec (symbols questions : list string) :
  generate_prompt symbols questions
    = generate_prompt (take 8 symbols) (take 1 questions) /\
  exists domanda elenco,
    generate_prompt symbols questions
      = "Rispondi in modo rigoroso e simbolico alla domanda: '" +:+ domanda
        +:+ "'. Usa i simboli chiave: " +:+ elenco +:+ "." /\
    lists 8 symbols elenco /\
    match questions with
    | q :: _ => domanda = q
    | [] =>
        exists cinque,
          domanda = "Approfondisci uno dei seguenti concetti: " +:+ cinque /\
          lists 5 symbols cinque
    end.
Proof.
  split.
  - unfold generate_prompt. rewrite !take_take.
    replace (8 `min` 8) with 8 by done. replace (5 `min` 8) with 5 by done.
    by destruct questions.
  - destruct questions as [|q rest].
    + exists ("Approfondisci uno dei seguenti concetti: "
                +:+ Str.join ", " (take 5 symbols)),
        (Str.join ", " (take 8 symbols)).
      split; [done|]. split; [apply join_lists|].
      exists (Str.join ", " (take 5 symbols)). split; [done|apply join_lists].
    + exists q, (Str.join ", " (take 8 symbols)).
      split; [done|]. split; [apply join_lists|done].
Qed.
